(** * RCP-Modifier: the scenario-modification pipeline of [modify_scenario.py]

    A shallow embedding of [modify_scenario] (phase schedule, regional
    scaling, world re-aggregation, reassembly) and of the range checks of
    [get_inputs_via_gui] in [climate_app.py].

    Numbers: the program computes with float64; the embedding computes with
    exact rationals ([Q]), so every numeric statement below is a statement
    about the exact values and numeric equality is [Qeq] ([==]).

    Exceptions: a Python exception is a [Raise] result. *)

From Stdlib Require Import ZArith QArith List String Bool Lia Lqa.
From Stdlib Require Import Permutation.
Import ListNotations.

Local Open Scope Z_scope.

(** ** Results of fallible code *)

Inductive exn : Type :=
| ValueError
| IndexError
| KeyError.

Inductive result (A : Type) : Type :=
| Ok (a : A)
| Raise (e : exn).

Arguments Ok {A} a.
Arguments Raise {A} e.

Definition bind {A B : Type} (c : result A) (k : A -> result B) : result B :=
  match c with
  | Ok a => k a
  | Raise e => Raise e
  end.

Notation "x <- c ;; k" := (bind c (fun x => k))
  (at level 61, c at next level, right associativity).

Definition of_option {A : Type} (e : exn) (o : option A) : result A :=
  match o with
  | Some a => Ok a
  | None => Raise e
  end.

(** [[f(x) for x in xs]], stopping at the first exception. *)
Fixpoint mapM {A B : Type} (f : A -> result B) (xs : list A) : result (list B) :=
  match xs with
  | [] => Ok []
  | x :: xs' => y <- f x ;; ys <- mapM f xs' ;; Ok (y :: ys)
  end.

(** ** The numpy operations the function uses *)

Module Np.

(** [np.arange(lo, hi)] on integers. *)
Definition arange (lo hi : Z) : list Z :=
  map (fun k => lo + Z.of_nat k) (seq 0 (Z.to_nat (hi - lo))).

(** [np.zeros(n)] *)
Definition zeros (n : nat) : list Q := repeat 0%Q n.

(** [np.linspace(start, stop, num)] with the default [endpoint=True]:
    [num] samples [start + k * step], [step = (stop - start) / (num - 1)],
    the last one set to [stop]; a single sample is [start]; a negative
    [num] is a ValueError. *)
Definition linspace (start stop : Q) (num : Z) : result (list Q) :=
  if num <? 0 then Raise ValueError
  else
    let div := num - 1 in
    let delta := (stop - start)%Q in
    let step := if 0 <? div then (delta / inject_Z div)%Q else delta in
    Ok (map (fun k => if (1 <? num) && (k =? div) then stop
                      else (inject_Z k * step + start)%Q)
            (arange 0 num)).

(** Bounds of the Python slice [lo:hi] on an axis of length [len]. *)
Definition clip (len i : Z) : Z :=
  if i <? 0 then Z.max 0 (i + len) else Z.min i len.

(** [a[lo:hi] = v] for 1-d arrays: [v] must have the length of the slice,
    or length 1 (broadcast); otherwise a ValueError. *)
Definition set_slice (a : list Q) (lo hi : Z) (v : list Q) : result (list Q) :=
  let len := Z.of_nat (List.length a) in
  let lo' := clip len lo in
  let hi' := clip len hi in
  let n := Z.to_nat (hi' - lo') in
  let put (w : list Q) :=
    (firstn (Z.to_nat lo') a ++ w ++ skipn (Z.to_nat lo' + n) a)%list in
  if (List.length v =? n)%nat then Ok (put v)
  else match v with
       | [x] => Ok (put (repeat x n))
       | _ => Raise ValueError
       end.

(** [a[lo:] = x] for a scalar [x]. *)
Definition fill_from (a : list Q) (lo : Z) (x : Q) : list Q :=
  let len := Z.of_nat (List.length a) in
  let lo' := clip len lo in
  (firstn (Z.to_nat lo') a ++ repeat x (List.length a - Z.to_nat lo'))%list.

End Np.

(** ** Phase schedule ([modify_scenario], lines 69-79) *)

Definition start_index : Z := 25.

Definition years_numeric : list Z := Np.arange 2000 2101.

Definition target_index (target_years : list Z) : list Z :=
  map (fun i => i - 2000) target_years.

Definition ramp_duration (target_years : list Z) : list Z :=
  map (fun i => i - start_index + 1) (target_index target_years).

(** Python list indexing with a non-negative index. *)
Definition item {A : Type} (l : list A) (i : nat) : result A :=
  of_option IndexError (nth_error l i).

(** [scale_factor[i]]: the ramp of region [i]. *)
Definition scale_factor_i (r_factors : list Q) (target_years : list Z) (i : nat)
  : result (list Q) :=
  r <- item r_factors i ;;
  num <- item (ramp_duration target_years) i ;;
  Np.linspace 0 r num.

Definition scale_factor (r_factors : list Q) (target_years : list Z)
  : result (list (list Q)) :=
  mapM (scale_factor_i r_factors target_years) (seq 0 (List.length r_factors)).

(** One pass of the loop at lines 77-79, on row [i] of the zero matrix. *)
Definition fill_row (sf : list Q) (ti : Z) (r : Q) : result (list Q) :=
  row <- Np.set_slice (Np.zeros (List.length years_numeric))
                      start_index (ti + 1) sf ;;
  Ok (Np.fill_from row (ti + 1) r).

Definition R_phase_i (r_factors : list Q) (target_years : list Z)
  (sfs : list (list Q)) (i : nat) : result (list Q) :=
  sf <- item sfs i ;;
  ti <- item (target_index target_years) i ;;
  r <- item r_factors i ;;
  fill_row sf ti r.

(** The matrix [R_phase] after the loop: one row per entry of [r_factors]. *)
Definition R_phase (r_factors : list Q) (target_years : list Z)
  : result (list (list Q)) :=
  sfs <- scale_factor r_factors target_years ;;
  mapM (R_phase_i r_factors target_years sfs) (seq 0 (List.length r_factors)).

(** The schedule of a single region: [R_phase] on one-element vectors. *)
Definition phase_row (r : Q) (target_year : Z) : result (list Q) :=
  sf <- Np.linspace 0 r (target_year - 2000 - start_index + 1) ;;
  fill_row sf (target_year - 2000) r.

(** Entry of a schedule row at a calendar year of the grid. *)
Definition at_year (row : list Q) (year : Z) : Q :=
  nth (Z.to_nat (year - 2000)) row 0%Q.

(** ** Scenario data

    A timeseries of a [ScmRun]/[MAGICCData] object: the seven metadata
    columns and the values on the time axis.  A wide data frame
    ([timeseries()]) is the same rows, metadata as index. *)

Local Open Scope string_scope.

Record Meta : Type := mkMeta {
  model : string;
  scenario : string;
  region : string;
  variable : string;
  unit : string;
  climate_model : string;
  todo : string
}.

Record TimeSeries : Type := mkTS {
  meta : Meta;
  values : list Q
}.

Definition ScmRun : Type := list TimeSeries.

(** The annual grid [pd.date_range("2000-01-01", "2100-12-31", freq="YS-JAN")],
    one column per year. *)
Definition tgrid : list Z := Np.arange 2000 2101.

Definition ncols : nat := List.length tgrid.

Definition regions_to_modify : list string :=
  ["World|R5OECD"; "World|R5LAM"; "World|R5MAF"; "World|R5REF"; "World|R5ASIA"].

Definition regions_to_replace : list string := "World" :: regions_to_modify.

Definition var : string := "Emissions|CO2|MAGICC Fossil and Industrial".

Definition isin (s : string) (l : list string) : bool :=
  existsb (String.eqb s) l.

(** [run.filter(variable=v, region=regs, keep=keep)] *)
Definition filter_variable_region (v : string) (regs : list string)
  (keep : bool) (run : ScmRun) : ScmRun :=
  filter (fun ts =>
            Bool.eqb ((variable (meta ts) =? v) && isin (region (meta ts)) regs)
                     keep)
         run.

(** [run.filter(region=regs)] *)
Definition filter_region (regs : list string) (run : ScmRun) : ScmRun :=
  filter (fun ts => isin (region (meta ts)) regs) run.

(** The selection at lines 93-103: every row of the frame whose region is
    neither "World|Bunkers" nor "World", with unit "Gt C / yr" and the fossil
    CO2 variable, in the order of the frame.  A label that occurs nowhere in
    its index level is a KeyError. *)
Definition loc_reg_C02 (new_df : ScmRun) : result ScmRun :=
  if negb (existsb (fun ts => unit (meta ts) =? "Gt C / yr") new_df)
     || negb (existsb (fun ts => variable (meta ts) =? var) new_df)
  then Raise KeyError
  else Ok (filter (fun ts =>
                     negb (isin (region (meta ts)) ["World|Bunkers"; "World"])
                     && (unit (meta ts) =? "Gt C / yr")
                     && (variable (meta ts) =? var))
                  new_df).

(** [1 - R_phase] *)
Definition one_minus (a : list (list Q)) : list (list Q) :=
  map (map (fun x => (1 - x)%Q)) a.

Definition has_width (n : nat) (row : list Q) : bool :=
  (List.length row =? n)%nat.

Fixpoint map2 {A B C : Type} (f : A -> B -> C) (l : list A) (l' : list B)
  : list C :=
  match l, l' with
  | x :: t, y :: t' => f x y :: map2 f t t'
  | _, _ => []
  end.

Definition scale (ts : TimeSeries) (factors : list Q) : TimeSeries :=
  mkTS (meta ts) (map2 Qmult (values ts) factors).

(** [df *= a] for a frame over [tgrid] (one value per grid year in every
    row) and a 2-d array: element by element, row [k] of the frame with row
    [k] of the array, when the shapes agree; an array of one row is broadcast
    to every row of the frame; any other shape is a ValueError. *)
Definition frame_imul (df : ScmRun) (a : list (list Q)) : result ScmRun :=
  if forallb (fun ts => has_width ncols (values ts)) df
     && forallb (has_width ncols) a
  then
    if (List.length a =? List.length df)%nat then Ok (map2 scale df a)
    else match a with
         | [row] => Ok (map (fun ts => scale ts row) df)
         | _ => Raise ValueError
         end
  else Raise ValueError.

Definition Qsum (l : list Q) : Q := fold_left Qplus l 0%Q.

(** [df.sum()]: the sum of every column; its index is the columns of the
    frame, [tgrid], so [reindex(tgrid)] keeps it as it is. *)
Definition frame_sum (df : ScmRun) : list Q :=
  map (fun k => Qsum (map (fun ts => nth k (values ts) 0%Q) df))
      (seq 0 ncols).

(** [meta.set_index('region').loc[regs].reset_index()]: for every label of
    [regs] in turn, the rows carrying it; a label carried by no row is a
    KeyError. *)
Definition loc_regions (m : list Meta) (regs : list string)
  : result (list Meta) :=
  chunks <- mapM (fun g =>
                    match filter (fun x => region x =? g) m with
                    | [] => Raise KeyError
                    | rows => Ok rows
                    end)
                 regs ;;
  Ok (List.concat chunks).

(** [MAGICCData(pd.DataFrame(data=data, index=index, columns=tgrid))]:
    row [k] of the data under entry [k] of the index; the two must have the
    same length. *)
Definition data_frame (data : list (list Q)) (index : list Meta)
  : result ScmRun :=
  if (List.length data =? List.length index)%nat
  then Ok (map2 mkTS index data)
  else Raise ValueError.

(** ** [modify_scenario]

    [scen_t] is the scenario after [interpolate] onto [tgrid]; the result is
    [new_run], the run handed to [pm.run]. *)
Definition modify_scenario (scen_t : ScmRun) (r_factors : list Q)
  (target_years : list Z) : result ScmRun :=
  R <- R_phase r_factors target_years ;;
  let new_df := scen_t in
  reg0 <- loc_reg_C02 new_df ;;
  reg_C02 <- frame_imul reg0 (one_minus R) ;;
  let world_co2_series := frame_sum reg_C02 in
  let base_run := filter_variable_region var regions_to_replace false scen_t in
  let replacement_meta_template :=
    filter_variable_region var regions_to_replace true scen_t in
  r5_meta_ordered <-
    loc_regions
      (map meta (filter_region regions_to_modify replacement_meta_template))
      regions_to_modify ;;
  let world_meta :=
    map meta (filter_region ["World"] replacement_meta_template) in
  let combined_meta := (world_meta ++ r5_meta_ordered)%list in
  let combined_values := world_co2_series :: map values reg_C02 in
  rep_run <- data_frame combined_values combined_meta ;;
  Ok (base_run ++ rep_run)%list.

(** The adjusted regional frame [reg_C02] after line 106. *)
Definition adjusted_regions (scen_t : ScmRun) (r_factors : list Q)
  (target_years : list Z) : result ScmRun :=
  R <- R_phase r_factors target_years ;;
  reg0 <- loc_reg_C02 scen_t ;;
  frame_imul reg0 (one_minus R).

(** ** Input collection ([get_inputs_via_gui] of [climate_app.py]) *)

Definition REGIONS : list string :=
  ["World|R5LAM"; "World|R5MAF"; "World|R5ASIA"; "World|R5REF"; "World|R5OECD"].

Definition START_YEAR : Z := 2025.
Definition END_YEAR : Z := 2100.

(** [r is not None and 0.0 <= r <= 1.0] *)
Definition r_accepted (r : option Q) : bool :=
  match r with
  | Some q => Qle_bool 0 q && Qle_bool q 1
  | None => false
  end.

(** [yr and START_YEAR <= yr <= END_YEAR] *)
Definition yr_accepted (yr : option Z) : bool :=
  match yr with
  | Some y => negb (y =? 0)%Z && (START_YEAR <=? y)%Z && (y <=? END_YEAR)%Z
  | None => false
  end.

(** A [while True] dialog loop, run on the successive answers of the user
    ([None] is a cancelled dialog): the first accepted answer and the
    answers not yet consumed; [None] while the loop is still asking.  The
    loop that asks for the baseline scenario is of the same shape and is not
    needed here. *)
Fixpoint ask_until {A : Type} (accepted : option A -> bool)
  (answers : list (option A)) : option (A * list (option A)) :=
  match answers with
  | [] => None
  | a :: rest =>
      match a with
      | Some x => if accepted a then Some (x, rest) else ask_until accepted rest
      | None => ask_until accepted rest
      end
  end.

(** The loop over the regions: [targets[region] = {'R': r, 'Year': yr}]. *)
Fixpoint collect_targets (regions : list string)
  (r_answers : list (option Q)) (yr_answers : list (option Z))
  : option (list (string * (Q * Z))) :=
  match regions with
  | [] => Some []
  | g :: regions' =>
      match ask_until r_accepted r_answers with
      | None => None
      | Some (r, r_answers') =>
          match ask_until yr_accepted yr_answers with
          | None => None
          | Some (yr, yr_answers') =>
              match collect_targets regions' r_answers' yr_answers' with
              | None => None
              | Some t => Some ((g, (r, yr)) :: t)
              end
          end
      end
  end.

(** ** A sample scenario

    Seven fossil-CO2 rows in the order the docstring of [modify_scenario]
    gives for the regions, and one row of another variable. *)

Definition sample_meta (g v : string) : Meta :=
  mkMeta "IMAGE" "RCP45" g v "Gt C / yr" "unspecified" "SET".

Definition flat (c : Z) : list Q := repeat (inject_Z c) ncols.

Definition sample_scen : ScmRun :=
  [ mkTS (sample_meta "World" var) (flat 15);
    mkTS (sample_meta "World|R5LAM" var) (flat 1);
    mkTS (sample_meta "World|R5MAF" var) (flat 2);
    mkTS (sample_meta "World|R5ASIA" var) (flat 3);
    mkTS (sample_meta "World|R5REF" var) (flat 4);
    mkTS (sample_meta "World|R5OECD" var) (flat 5);
    mkTS (sample_meta "World|Bunkers" var) (flat 7);
    mkTS (sample_meta "World" "Emissions|CH4") (flat 300) ].

(** A second sample scenario, with the regional rows in the order of
    [regions_to_modify]. *)
Definition sample_scen_ordered : ScmRun :=
  [ mkTS (sample_meta "World|Bunkers" var) (flat 7);
    mkTS (sample_meta "World|R5OECD" var) (flat 5);
    mkTS (sample_meta "World|R5LAM" var) (flat 1);
    mkTS (sample_meta "World|R5MAF" var) (flat 2);
    mkTS (sample_meta "World|R5REF" var) (flat 4);
    mkTS (sample_meta "World|R5ASIA" var) (flat 3);
    mkTS (sample_meta "World" var) (flat 15) ].

(** ** The rest of [climate_app.py]

    A Python dict with string keys, and a row of a data frame, as the list of
    their entries in insertion order. *)

(** [d.get(key, default)] *)
Fixpoint get_default (d : list (string * string)) (key default : string)
  : string :=
  match d with
  | [] => default
  | (k, v) :: d' => if k =? key then v else get_default d' key default
  end.

(** [d[key]], a KeyError when the key is absent. *)
Fixpoint dict_get {V : Type} (d : list (string * V)) (key : string)
  : result V :=
  match d with
  | [] => Raise KeyError
  | (k, v) :: d' => if k =? key then Ok v else dict_get d' key
  end.

(** [d[key] = v]: an existing key keeps its place. *)
Fixpoint dict_set {V : Type} (d : list (string * V)) (key : string) (v : V)
  : list (string * V) :=
  match d with
  | [] => [(key, v)]
  | (k, v') :: d' =>
      if k =? key then (k, v) :: d' else (k, v') :: dict_set d' key v
  end.

Definition GeoRow : Type := list (string * string).

(** [map_to_r5] of [load_and_map_geodata]: the region of a country row. *)
Definition map_to_r5 (row : GeoRow) : string :=
  let iso := get_default row "ADM0_A3" "" in
  let name := get_default row "ADMIN" (get_default row "name" "") in
  let continent := get_default row "CONTINENT" "" in
  let subregion := get_default row "SUBREGION" "" in
  if isin iso ["JPN"; "KOR"; "AUS"; "NZL"; "CAN"; "USA"; "CHE"; "ISL"; "NOR";
               "TUR"]
  then "World|R5OECD"
  else if name =? "Greenland" then "World|R5OECD"
  else if (continent =? "Europe") && negb (iso =? "RUS") then "World|R5OECD"
  else if (iso =? "RUS") || isin subregion ["Central Asia"; "Eastern Europe"]
  then "World|R5REF"
  else if (continent =? "Asia") && negb (isin iso ["JPN"; "KOR"])
  then "World|R5ASIA"
  else if (continent =? "Africa") || (subregion =? "Western Asia")
  then "World|R5MAF"
  else if isin continent ["South America"; "North America"]
          && negb (isin iso ["USA"; "CAN"])
  then "World|R5LAM"
  else if (continent =? "Oceania") && negb (isin iso ["AUS"; "NZL"])
  then "World|R5LAM"
  else "Other".

(** The country table after [gpd.read_file]: its columns and its rows. *)
Record GeoFrame : Type := mkGeo {
  columns : list string;
  geo_rows : list GeoRow
}.

(** [load_and_map_geodata] from the table that was read: Antarctica is
    dropped by the [name] column, or else by the [ADMIN] column, and the
    column [magicc_region] is set on every row. *)
Definition load_and_map_geodata (world : GeoFrame) : GeoFrame :=
  let world1 :=
    if isin "name" (columns world)
    then filter (fun row => negb (get_default row "name" "" =? "Antarctica"))
                (geo_rows world)
    else if isin "ADMIN" (columns world)
    then filter (fun row => negb (get_default row "ADMIN" "" =? "Antarctica"))
                (geo_rows world)
    else geo_rows world in
  mkGeo (if isin "magicc_region" (columns world) then columns world
         else columns world ++ ["magicc_region"])%list
        (map (fun row => dict_set row "magicc_region" (map_to_r5 row)) world1).

Definition REGION_COLORS : list (string * string) :=
  [("World|R5LAM", "#1f77b4"); ("World|R5MAF", "#ff7f0e");
   ("World|R5ASIA", "#2ca02c"); ("World|R5REF", "#d62728");
   ("World|R5OECD", "#9467bd"); ("Other", "#e377c2")].

(** The fill colour of the style function of [create_and_save_map], from the
    properties of a feature:
    [REGION_COLORS.get(feat['properties']['magicc_region'], '#808080')]. *)
Definition fillColor (properties : GeoRow) : result string :=
  magicc_region <- dict_get properties "magicc_region" ;;
  Ok (get_default REGION_COLORS magicc_region "#808080").

(** The baseline scenarios, by their names. *)
Definition BASELINE_SCENARIOS : list (Z * string) :=
  [(1, "rcp26"); (2, "rcp45"); (3, "rcp60"); (4, "rcp85")]%Z.

Fixpoint baseline_of (d : list (Z * string)) (choice : Z) : option string :=
  match d with
  | [] => None
  | (k, v) :: d' => if (k =? choice)%Z then Some v else baseline_of d' choice
  end.

(** [choice in BASELINE_SCENARIOS] *)
Definition choice_accepted (choice : option Z) : bool :=
  match choice with
  | Some c => match baseline_of BASELINE_SCENARIOS c with
              | Some _ => true
              | None => false
              end
  | None => false
  end.

(** [get_inputs_via_gui]: the baseline loop, then the loop over the regions,
    which fills the dict [targets]; the answers to the three kinds of dialog
    are given in the order the user makes them. *)
Definition get_inputs_via_gui (regions : list string)
  (choice_answers : list (option Z)) (r_answers : list (option Q))
  (yr_answers : list (option Z))
  : option (string * list (string * (Q * Z))) :=
  match ask_until choice_accepted choice_answers with
  | None => None
  | Some (choice, _) =>
      match baseline_of BASELINE_SCENARIOS choice with
      | None => None
      | Some baseline =>
          match collect_targets regions r_answers yr_answers with
          | None => None
          | Some pairs =>
              Some (baseline,
                    fold_left (fun targets p => dict_set targets (fst p) (snd p))
                              pairs [])
          end
      end
  end.

(** [r_vals] and [y_vals] of the main program. *)
Definition r_vals (regional_targets : list (string * (Q * Z)))
  : result (list Q) :=
  mapM (fun r => t <- dict_get regional_targets r ;; Ok (fst t)) REGIONS.

Definition y_vals (regional_targets : list (string * (Q * Z)))
  : result (list Z) :=
  mapM (fun r => t <- dict_get regional_targets r ;; Ok (snd t)) REGIONS.

(** The regional fossil CO2 rows of the sample scenario, and the World row
    of the result on the sample vectors. *)
Definition sample_reg0 : ScmRun :=
  [ mkTS (sample_meta "World|R5LAM" var) (flat 1);
    mkTS (sample_meta "World|R5MAF" var) (flat 2);
    mkTS (sample_meta "World|R5ASIA" var) (flat 3);
    mkTS (sample_meta "World|R5REF" var) (flat 4);
    mkTS (sample_meta "World|R5OECD" var) (flat 5) ].

(** An answer the loop does not stop at: a cancelled dialog, or a value that
    fails the test. *)
Definition asked_again {A : Type} (accepted : option A -> bool)
  (a : option A) : Prop :=
  match a with
  | Some v => accepted (Some v) = false
  | None => True
  end.

(** ** Definitions used in the statements *)

Local Open Scope Q_scope.

(** Sample [j] of [np.linspace(0, r, num)]. *)
Definition ramp (r : Q) (num : Z) (j : nat) : Q :=
  if ((1 <? num) && (Z.of_nat j =? num - 1))%Z then r
  else inject_Z (Z.of_nat j)
       * (if (0 <? num - 1)%Z then (r - 0) / inject_Z (num - 1) else r - 0)
       + 0.

(** The schedule of one region, for a target year on the grid from the
    ramp-start year on. *)
Definition schedule (r : Q) (y : Z) : list Q :=
  (repeat 0 25
   ++ map (ramp r (y - 2024)) (seq 0 (Z.to_nat (y - 2024)))
   ++ repeat r (Z.to_nat (2100 - y)))%list.

(** The R5OECD row of the sample scenario. *)
Definition sample_oecd : TimeSeries :=
  mkTS (sample_meta "World|R5OECD" var) (flat 5).

(** The intermediate values of [modify_scenario] that depend on the scenario
    only, under the names they have in the function. *)
Definition base_run (scen : ScmRun) : ScmRun :=
  filter_variable_region var regions_to_replace false scen.

Definition replacement_meta_template (scen : ScmRun) : ScmRun :=
  filter_variable_region var regions_to_replace true scen.

Definition world_meta (scen : ScmRun) : list Meta :=
  map meta (filter_region ["World"] (replacement_meta_template scen)).

Definition r5_meta (scen : ScmRun) : list Meta :=
  map meta (filter_region regions_to_modify (replacement_meta_template scen)).

(** The caller's vectors, in the order of [REGIONS]: only R5OECD is reduced,
    fully, by 2050. *)
Definition sample_rs : list Q := [0; 0; 0; 0; 1].

Definition sample_ys : list Z := [2050; 2050; 2050; 2050; 2050]%Z.

Definition sample_out : ScmRun :=
  match modify_scenario sample_scen sample_rs sample_ys with
  | Ok out => out
  | Raise _ => []
  end.

Definition sample_world_out : TimeSeries :=
  nth 2 sample_out (mkTS (sample_meta "World" var) []).

(** The fossil CO2 rows of a region. *)
Definition fossil_rows (g : string) (scen : ScmRun) : ScmRun :=
  filter (fun ts => (variable (meta ts) =? var)%string
                    && (region (meta ts) =? g)%string) scen.

(** A scenario with the six expected rows: one fossil CO2 row for World and
    for each of the five regions, every fossil CO2 row in "Gt C / yr" and for
    World, one of the five regions or the bunkers. *)
Definition expected_schema (scen : ScmRun) : Prop :=
  (forall g, In g regions_to_replace ->
             List.length (fossil_rows g scen) = 1%nat)
  /\ (forall ts, In ts scen -> variable (meta ts) = var ->
        unit (meta ts) = "Gt C / yr"
        /\ In (region (meta ts)) ("World|Bunkers" :: regions_to_replace)).

(** Every row is on the annual grid, as after [interpolate]. *)
Definition on_grid (scen : ScmRun) : Prop :=
  Forall (fun ts => List.length (values ts) = ncols) scen.

(** The scenario with other values in its World fossil CO2 rows. *)
Definition with_world_values (v : list Q) (scen : ScmRun) : ScmRun :=
  map (fun ts => if (variable (meta ts) =? var)%string
                    && (region (meta ts) =? "World")%string
                 then mkTS (meta ts) v else ts)
      scen.

(** * Properties of the phase schedule *)

Lemma nth_map_seq {A : Type} (h : nat -> A) (n j : nat) (d : A) :
  (j < n)%nat -> nth j (map h (seq 0 n)) d = h j.
Proof.
  intros Hj.
  rewrite (nth_indep _ d (h 0%nat)) by (rewrite length_map, length_seq; exact Hj).
  rewrite map_nth, seq_nth by exact Hj.
  reflexivity.
Qed.

Lemma linspace_ramp (r : Q) (num : Z) :
  (0 <= num)%Z ->
  Np.linspace 0 r num = Ok (map (ramp r num) (seq 0 (Z.to_nat num))).
Proof.
  intros Hnum. unfold Np.linspace, Np.arange.
  destruct (num <? 0)%Z eqn:E; [lia|].
  rewrite map_map. replace (num - 0)%Z with num by lia.
  reflexivity.
Qed.

Lemma linspace_negative (r : Q) (num : Z) :
  (num < 0)%Z -> Np.linspace 0 r num = Raise ValueError.
Proof.
  intros Hnum. unfold Np.linspace.
  destruct (num <? 0)%Z eqn:E; [reflexivity|lia].
Qed.

Lemma ramp_single (r : Q) : ramp r 1 0 == 0.
Proof. unfold ramp. simpl. ring. Qed.

Lemma inject_Z_nonzero (d : Z) : (0 < d)%Z -> ~ inject_Z d == 0.
Proof.
  intros Hd H. apply (inject_Z_injective d 0) in H. lia.
Qed.

(** On a ramp of at least two samples, sample [j] is [r * j / (num - 1)]. *)
Lemma ramp_linear (r : Q) (num : Z) (j : nat) :
  (1 < num)%Z ->
  ramp r num j == r * inject_Z (Z.of_nat j) / inject_Z (num - 1).
Proof.
  intros Hnum. unfold ramp.
  pose proof (inject_Z_nonzero (num - 1) ltac:(lia)) as Hd.
  destruct (1 <? num)%Z eqn:E1; [|lia].
  destruct (0 <? num - 1)%Z eqn:E2; [|lia].
  destruct (Z.of_nat j =? num - 1)%Z eqn:E3; simpl.
  - apply Z.eqb_eq in E3. rewrite E3. field. exact Hd.
  - field. exact Hd.
Qed.

Lemma inject_Z_pos (d : Z) : (0 < d)%Z -> 0 < inject_Z d.
Proof. intros Hd. unfold Qlt. simpl. lia. Qed.

Lemma inject_Z_nonneg (d : Z) : (0 <= d)%Z -> 0 <= inject_Z d.
Proof. intros Hd. unfold Qle. simpl. lia. Qed.

Lemma ramp_bounds (r : Q) (num : Z) (j : nat) :
  0 <= r -> (1 <= num)%Z -> (Z.of_nat j <= num - 1)%Z ->
  0 <= ramp r num j <= r.
Proof.
  intros Hr Hnum Hj.
  destruct (Z.eq_dec num 1) as [->|Hne].
  - assert (j = 0%nat) as -> by lia. rewrite ramp_single. lra.
  - rewrite ramp_linear by lia.
    pose proof (inject_Z_nonzero (num - 1) ltac:(lia)) as Hd.
    assert (Hd0 : 0 < inject_Z (num - 1)) by (apply inject_Z_pos; lia).
    assert (Hj0 : 0 <= inject_Z (Z.of_nat j)) by (apply inject_Z_nonneg; lia).
    assert (Hjd : inject_Z (Z.of_nat j) <= inject_Z (num - 1))
      by (rewrite <- Zle_Qle; exact Hj).
    split.
    + apply Qle_shift_div_l; [exact Hd0|]. nra.
    + apply Qle_shift_div_r; [exact Hd0|]. nra.
Qed.


Lemma ramp_zero (r : Q) (num : Z) (j : nat) :
  r == 0 -> ramp r num j == 0.
Proof.
  intros Hr. unfold ramp.
  destruct ((1 <? num) && (Z.of_nat j =? num - 1))%Z; [exact Hr|].
  destruct (0 <? num - 1)%Z eqn:E.
  - rewrite Hr. field. apply inject_Z_nonzero. lia.
  - rewrite Hr. ring.
Qed.

(** The row built by one pass of the loop, for a target index on the grid
    (and for index 24, where the ramp is empty). *)
Lemma fill_row_ok (sf : list Q) (ti : Z) (r : Q) :
  (24 <= ti <= 100)%Z ->
  List.length sf = Z.to_nat (ti - 24) ->
  fill_row sf ti r
  = Ok (repeat 0 25 ++ sf ++ repeat r (Z.to_nat (100 - ti)))%list.
Proof.
  intros Hti Hsf. unfold fill_row, Np.set_slice.
  change (List.length (Np.zeros (List.length years_numeric))) with 101%nat.
  change (Z.of_nat 101) with 101%Z.
  assert (Hlo : Np.clip 101 start_index = 25%Z) by reflexivity.
  assert (Hhi : Np.clip 101 (ti + 1) = (ti + 1)%Z).
  { unfold Np.clip. destruct (ti + 1 <? 0)%Z eqn:E; lia. }
  rewrite Hlo, Hhi.
  replace (Z.to_nat (ti + 1 - 25)) with (List.length sf) by lia.
  rewrite Nat.eqb_refl. cbn [bind].
  unfold Np.fill_from.
  change (firstn (Z.to_nat 25) (Np.zeros (List.length years_numeric)))
    with (repeat 0 25).
  set (tail := skipn (Z.to_nat 25 + List.length sf)
                     (Np.zeros (List.length years_numeric))).
  assert (Htail : List.length tail = Z.to_nat (100 - ti)).
  { unfold tail. rewrite length_skipn.
    change (List.length (Np.zeros (List.length years_numeric))) with 101%nat.
    lia. }
  assert (Hlen : List.length (repeat 0 25 ++ sf ++ tail)%list = 101%nat).
  { rewrite !length_app, repeat_length, Htail. lia. }
  rewrite Hlen. change (Z.of_nat 101) with 101%Z. rewrite Hhi.
  f_equal.
  rewrite (app_assoc (repeat 0%Q 25) sf tail).
  replace (Z.to_nat (ti + 1))
    with (List.length (repeat 0%Q 25 ++ sf)%list + 0)%nat
    by (rewrite length_app, repeat_length; lia).
  rewrite firstn_app_2. cbn [firstn]. rewrite app_nil_r, <- app_assoc.
  do 2 f_equal.
  rewrite length_app, repeat_length. f_equal. lia.
Qed.

(** A ramp longer than the rest of the grid cannot be stored: a target
    index past the last grid year is a ValueError. *)
Lemma fill_row_past_grid (sf : list Q) (ti : Z) (r : Q) :
  (100 < ti)%Z ->
  List.length sf = Z.to_nat (ti - 24) ->
  fill_row sf ti r = Raise ValueError.
Proof.
  intros Hti Hsf. unfold fill_row, Np.set_slice.
  change (List.length (Np.zeros (List.length years_numeric))) with 101%nat.
  change (Z.of_nat 101) with 101%Z.
  assert (Hlo : Np.clip 101 start_index = 25%Z) by reflexivity.
  assert (Hhi : Np.clip 101 (ti + 1) = 101%Z).
  { unfold Np.clip. destruct (ti + 1 <? 0)%Z eqn:E; lia. }
  rewrite Hlo, Hhi.
  destruct (List.length sf =? Z.to_nat (101 - 25))%nat eqn:E.
  - apply Nat.eqb_eq in E. lia.
  - destruct sf as [|x [|x' sf']]; [reflexivity| |reflexivity].
    simpl in Hsf. lia.
Qed.

Lemma phase_row_ok (r : Q) (y : Z) :
  (2024 <= y <= 2100)%Z -> phase_row r y = Ok (schedule r y).
Proof.
  intros Hy. unfold phase_row, start_index.
  replace (y - 2000 - 25 + 1)%Z with (y - 2024)%Z by lia.
  rewrite linspace_ramp by lia. cbn [bind].
  rewrite fill_row_ok.
  - unfold schedule. do 4 f_equal. lia.
  - lia.
  - rewrite length_map, length_seq. f_equal. lia.
Qed.

Lemma phase_row_too_late (r : Q) (y : Z) :
  (2100 < y)%Z -> phase_row r y = Raise ValueError.
Proof.
  intros Hy. unfold phase_row, start_index.
  replace (y - 2000 - 25 + 1)%Z with (y - 2024)%Z by lia.
  rewrite linspace_ramp by lia. cbn [bind].
  apply fill_row_past_grid; [lia|].
  rewrite length_map, length_seq. f_equal. lia.
Qed.

Lemma phase_row_too_early (r : Q) (y : Z) :
  (y < 2024)%Z -> phase_row r y = Raise ValueError.
Proof.
  intros Hy. unfold phase_row, start_index.
  rewrite linspace_negative by lia. reflexivity.
Qed.

Lemma schedule_length (r : Q) (y : Z) :
  (2024 <= y <= 2100)%Z -> List.length (schedule r y) = 101%nat.
Proof.
  intros Hy. unfold schedule.
  rewrite !length_app, !repeat_length, length_map, length_seq. lia.
Qed.

Lemma schedule_before (r : Q) (y : Z) (k : nat) :
  (k < 25)%nat -> nth k (schedule r y) 0 = 0.
Proof.
  intros Hk. unfold schedule.
  rewrite app_nth1 by (rewrite repeat_length; exact Hk).
  apply nth_repeat.
Qed.

Lemma schedule_ramp (r : Q) (y : Z) (k : nat) :
  (25 <= k)%nat -> (Z.of_nat k <= y - 2000)%Z ->
  nth k (schedule r y) 0 = ramp r (y - 2024) (k - 25).
Proof.
  intros Hk Hky. unfold schedule.
  rewrite app_nth2 by (rewrite repeat_length; lia).
  rewrite repeat_length.
  rewrite app_nth1 by (rewrite length_map, length_seq; lia).
  apply nth_map_seq. lia.
Qed.

Lemma schedule_after (r : Q) (y : Z) (k : nat) :
  (2024 <= y)%Z -> (y - 2000 < Z.of_nat k <= 100)%Z ->
  nth k (schedule r y) 0 = r.
Proof.
  intros Hy Hk. unfold schedule.
  rewrite app_nth2 by (rewrite repeat_length; lia).
  rewrite repeat_length.
  rewrite app_nth2 by (rewrite length_map, length_seq; lia).
  rewrite length_map, length_seq.
  rewrite (nth_indep _ 0 r) by (rewrite repeat_length; lia).
  apply nth_repeat.
Qed.

Lemma schedule_bounds (r : Q) (y : Z) (k : nat) :
  0 <= r -> (2025 <= y <= 2100)%Z -> (k < 101)%nat ->
  0 <= nth k (schedule r y) 0 <= r.
Proof.
  intros Hr Hy Hk.
  destruct (Nat.lt_ge_cases k 25) as [Hlo|Hlo].
  - rewrite schedule_before by exact Hlo. lra.
  - destruct (Z_le_gt_dec (Z.of_nat k) (y - 2000)) as [Hmid|Hhi].
    + rewrite schedule_ramp by assumption.
      apply ramp_bounds; [exact Hr|lia|lia].
    + rewrite schedule_after by lia. lra.
Qed.

Lemma schedule_zero (r : Q) (y : Z) (k : nat) :
  r == 0 -> (2025 <= y <= 2100)%Z -> (k < 101)%nat ->
  nth k (schedule r y) 0 == 0.
Proof.
  intros Hr Hy Hk.
  destruct (Nat.lt_ge_cases k 25) as [Hlo|Hlo].
  - rewrite schedule_before by exact Hlo. reflexivity.
  - destruct (Z_le_gt_dec (Z.of_nat k) (y - 2000)) as [Hmid|Hhi].
    + rewrite schedule_ramp by assumption. apply ramp_zero, Hr.
    + rewrite schedule_after by lia. exact Hr.
Qed.

(** ** From the rows to the matrix *)

Lemma bind_Ok {A B : Type} (c : result A) (k : A -> result B) (b : B) :
  bind c k = Ok b <-> exists a, c = Ok a /\ k a = Ok b.
Proof.
  destruct c as [a|e]; simpl; split.
  - intros H. exists a. split; [reflexivity|exact H].
  - intros [a' [Ha H]]. injection Ha as <-. exact H.
  - discriminate.
  - intros [a' [Ha _]]. discriminate.
Qed.

Lemma item_Ok {A : Type} (l : list A) (i : nat) (x : A) :
  item l i = Ok x <-> nth_error l i = Some x.
Proof.
  unfold item. destruct (nth_error l i) as [a|]; simpl; split; intros H;
    try discriminate; injection H as <-; reflexivity.
Qed.

Lemma mapM_seq_Ok {B : Type} (f : nat -> result B) (n : nat) :
  forall (a : nat) (M : list B),
    mapM f (seq a n) = Ok M
    <-> List.length M = n
        /\ forall i, (i < n)%nat ->
             exists x, nth_error M i = Some x /\ f (a + i)%nat = Ok x.
Proof.
  induction n as [|n IH]; intros a M; simpl.
  - split.
    + intros H. injection H as <-. split; [reflexivity|]. intros i Hi. lia.
    + intros [HM _]. destruct M; [reflexivity|discriminate].
  - rewrite bind_Ok. split.
    + intros [y [Hy H]]. apply bind_Ok in H. destruct H as [ys [Hys H]].
      injection H as <-. apply IH in Hys. destruct Hys as [Hlen Hnth].
      split; [simpl; congruence|].
      intros [|i] Hi.
      * exists y. rewrite Nat.add_0_r. split; [reflexivity|exact Hy].
      * destruct (Hnth i ltac:(lia)) as [x [Hx Hfx]].
        exists x. rewrite Nat.add_succ_r. split; assumption.
    + intros [Hlen Hnth]. destruct M as [|y ys]; [discriminate|].
      exists y. split.
      * destruct (Hnth 0%nat ltac:(lia)) as [x [Hx Hfx]].
        injection Hx as <-. rewrite Nat.add_0_r in Hfx. exact Hfx.
      * apply bind_Ok. exists ys. split; [|reflexivity].
        apply IH. split; [simpl in Hlen; lia|].
        intros i Hi. destruct (Hnth (S i) ltac:(lia)) as [x [Hx Hfx]].
        exists x. rewrite Nat.add_succ_r in Hfx. split; assumption.
Qed.

Lemma ramp_duration_nth (ys : list Z) (i : nat) :
  nth_error (ramp_duration ys) i
  = option_map (fun y => y - 2000 - start_index + 1)%Z (nth_error ys i).
Proof.
  unfold ramp_duration, target_index. rewrite map_map, nth_error_map.
  reflexivity.
Qed.

Lemma target_index_nth (ys : list Z) (i : nat) :
  nth_error (target_index ys) i
  = option_map (fun y => y - 2000)%Z (nth_error ys i).
Proof. unfold target_index. apply nth_error_map. Qed.

(** [R_phase] succeeds exactly when every region's row can be built, and
    row [i] of the matrix is the schedule of entry [i] of the two vectors. *)
Lemma R_phase_Ok (rs : list Q) (ys : list Z) (M : list (list Q)) :
  R_phase rs ys = Ok M
  <-> List.length M = List.length rs
      /\ forall i r, nth_error rs i = Some r ->
           exists y row, nth_error ys i = Some y
                         /\ nth_error M i = Some row
                         /\ phase_row r y = Ok row.
Proof.
  unfold R_phase. rewrite bind_Ok. split.
  - intros [sfs [Hsfs HM]].
    apply mapM_seq_Ok in Hsfs. destruct Hsfs as [_ Hsfs].
    apply mapM_seq_Ok in HM. destruct HM as [Hlen HM].
    split; [exact Hlen|]. intros i r Hr.
    assert (Hi : (i < List.length rs)%nat)
      by (apply nth_error_Some; congruence).
    destruct (Hsfs i Hi) as [sf [Hsf Hsfi]].
    destruct (HM i Hi) as [row [Hrow Hrowi]].
    simpl in Hsfi, Hrowi.
    unfold scale_factor_i in Hsfi. unfold R_phase_i in Hrowi.
    apply bind_Ok in Hsfi. destruct Hsfi as [r1 [Hr1 Hsfi]].
    apply item_Ok in Hr1.
    apply bind_Ok in Hsfi. destruct Hsfi as [num [Hnum Hsfi]].
    apply item_Ok in Hnum. rewrite ramp_duration_nth in Hnum.
    apply bind_Ok in Hrowi. destruct Hrowi as [sf1 [Hsf1 Hrowi]].
    apply item_Ok in Hsf1.
    apply bind_Ok in Hrowi. destruct Hrowi as [ti [Hti Hrowi]].
    apply item_Ok in Hti. rewrite target_index_nth in Hti.
    apply bind_Ok in Hrowi. destruct Hrowi as [r2 [Hr2 Hrowi]].
    apply item_Ok in Hr2.
    destruct (nth_error ys i) as [y|] eqn:Hy; [|discriminate].
    simpl in Hnum, Hti. injection Hnum as <-. injection Hti as <-.
    assert (r1 = r) by congruence. assert (r2 = r) by congruence.
    assert (sf1 = sf) by congruence. subst.
    exists y, row. split; [reflexivity|]. split; [exact Hrow|].
    unfold phase_row. rewrite Hsfi. exact Hrowi.
  - intros [Hlen HM].
    assert (Hsfs : forall i, (i < List.length rs)%nat ->
              exists sf, scale_factor_i rs ys i = Ok sf).
    { intros i Hi.
      destruct (nth_error rs i) as [r|] eqn:Hr;
        [|apply nth_error_None in Hr; lia].
      destruct (HM i r Hr) as [y [row [Hy [_ Hrow]]]].
      unfold phase_row in Hrow. apply bind_Ok in Hrow.
      destruct Hrow as [sf [Hsf _]].
      exists sf. unfold scale_factor_i.
      apply bind_Ok. exists r. split; [apply item_Ok, Hr|].
      apply bind_Ok. exists (y - 2000 - start_index + 1)%Z.
      split; [|exact Hsf].
      apply item_Ok. rewrite ramp_duration_nth, Hy. reflexivity. }
    exists (map (fun i => match scale_factor_i rs ys i with
                          | Ok sf => sf
                          | Raise _ => []
                          end) (seq 0 (List.length rs))).
    split.
    + apply mapM_seq_Ok. split; [rewrite length_map, length_seq; reflexivity|].
      intros i Hi. destruct (Hsfs i Hi) as [sf Hsf].
      exists sf. simpl. split; [|exact Hsf].
      rewrite nth_error_map, nth_error_seq.
      destruct (Nat.ltb_spec i (List.length rs)); [|lia].
      simpl. rewrite Hsf. reflexivity.
    + apply mapM_seq_Ok. split; [exact Hlen|].
      intros i Hi. simpl.
      destruct (nth_error rs i) as [r|] eqn:Hr;
        [|apply nth_error_None in Hr; lia].
      destruct (HM i r Hr) as [y [row [Hy [HMi Hrow]]]].
      exists row. split; [exact HMi|].
      unfold phase_row in Hrow. apply bind_Ok in Hrow.
      destruct Hrow as [sf [Hsf Hfill]].
      unfold R_phase_i.
      apply bind_Ok. exists sf. split.
      { apply item_Ok. rewrite nth_error_map, nth_error_seq.
        destruct (Nat.ltb_spec i (List.length rs)); [|lia].
        simpl. unfold scale_factor_i.
        unfold item at 1. rewrite Hr. simpl.
        unfold item. rewrite ramp_duration_nth, Hy. simpl.
        rewrite Hsf. reflexivity. }
      apply bind_Ok. exists (y - 2000)%Z. split.
      { apply item_Ok. rewrite target_index_nth, Hy. reflexivity. }
      apply bind_Ok. exists r. split; [apply item_Ok, Hr|exact Hfill].
Qed.

Lemma length_map2 {A B C : Type} (f : A -> B -> C) (l : list A) :
  forall l' : list B,
    List.length (map2 f l l') = Nat.min (List.length l) (List.length l').
Proof.
  induction l as [|x l IH]; intros [|y l']; simpl; try reflexivity.
  rewrite IH. reflexivity.
Qed.

Lemma nth_error_map2 {A B C : Type} (f : A -> B -> C) (l : list A) :
  forall (l' : list B) (i : nat) (a : A) (b : B),
    nth_error l i = Some a -> nth_error l' i = Some b ->
    nth_error (map2 f l l') i = Some (f a b).
Proof.
  induction l as [|x l IH]; intros [|y l'] [|i] a b Ha Hb; simpl in *;
    try discriminate.
  - congruence.
  - eapply IH; eassumption.
Qed.

Lemma nth_map2 {A B C : Type} (f : A -> B -> C) (da : A) (db : B) (dc : C)
  (l : list A) :
  forall (l' : list B) (i : nat),
    (i < List.length l)%nat -> (i < List.length l')%nat ->
    nth i (map2 f l l') dc = f (nth i l da) (nth i l' db).
Proof.
  induction l as [|x l IH]; intros [|y l'] [|i] Hl Hl'; simpl in *;
    try lia; try reflexivity.
  apply IH; lia.
Qed.

(** With every target year on the grid from 2024 on, the matrix is built
    whatever the reduction fractions are. *)
Lemma R_phase_total (rs : list Q) (ys : list Z) :
  List.length ys = List.length rs ->
  Forall (fun y => 2024 <= y <= 2100)%Z ys ->
  R_phase rs ys = Ok (map2 schedule rs ys).
Proof.
  intros Hlen Hys. apply R_phase_Ok. split.
  - rewrite length_map2. lia.
  - intros i r Hr.
    destruct (nth_error ys i) as [y|] eqn:Hy.
    + exists y, (schedule r y). split; [reflexivity|]. split.
      * apply nth_error_map2; assumption.
      * apply phase_row_ok.
        rewrite Forall_forall in Hys. apply Hys.
        eapply nth_error_In. exact Hy.
    + apply nth_error_None in Hy.
      assert (i < List.length rs)%nat by (apply nth_error_Some; congruence).
      lia.
Qed.

(** On one-element vectors the matrix is the single row [phase_row]. *)
Lemma R_phase_single (r : Q) (y : Z) (row : list Q) :
  R_phase [r] [y] = Ok [row] <-> phase_row r y = Ok row.
Proof.
  rewrite R_phase_Ok. split.
  - intros [_ H]. destruct (H 0%nat r eq_refl) as [y' [row' [Hy [Hrow Hp]]]].
    simpl in Hy, Hrow. congruence.
  - intros H. split; [reflexivity|].
    intros [|i] r' Hr'; simpl in Hr'; [|destruct i; discriminate].
    injection Hr' as <-. exists y, row. auto.
Qed.


Lemma at_year_ramp (r : Q) (y t : Z) :
  (2025 < y)%Z -> (2025 <= t <= y)%Z ->
  at_year (schedule r y) t == r * inject_Z (t - 2025) / inject_Z (y - 2025).
Proof.
  intros Hy Ht. unfold at_year.
  rewrite schedule_ramp by lia.
  rewrite ramp_linear by lia.
  replace (Z.of_nat (Z.to_nat (t - 2000) - 25)) with (t - 2025)%Z by lia.
  replace (y - 2024 - 1)%Z with (y - 2025)%Z by lia.
  reflexivity.
Qed.



(** ** The claims on the schedule *)




(** C3: with the target year equal to the ramp-start year the schedule is still
    0 at 2025 and reaches [r] only at 2026: [np.linspace(0, r, 1)] is [[0.]]. *)
Theorem step_schedule_starts_one_year_late :
  exists row,
    R_phase [1#2] [2025%Z] = Ok [row]
    /\ at_year row 2024 == 0
    /\ at_year row 2025 == 0
    /\ ~ at_year row 2025 == 1#2
    /\ at_year row 2026 == 1#2.
Proof.
  eexists. split; [vm_compute; reflexivity|].
  split; [vm_compute; reflexivity|].
  split; [vm_compute; reflexivity|].
  split; [vm_compute; discriminate|].
  vm_compute. reflexivity.
Qed.

(** * Properties of the regional adjustment *)

Lemma frame_imul_nth (df : ScmRun) (a : list (list Q)) (adj : ScmRun)
  (i : nat) (ts : TimeSeries) (row : list Q) :
  frame_imul df a = Ok adj ->
  nth_error df i = Some ts -> nth_error a i = Some row ->
  nth_error adj i = Some (scale ts row)
  /\ List.length (values ts) = ncols /\ List.length row = ncols.
Proof.
  unfold frame_imul. intros H Hts Hrow.
  destruct (forallb (fun ts => has_width ncols (values ts)) df) eqn:Hdf;
    [|discriminate].
  destruct (forallb (has_width ncols) a) eqn:Ha; [|discriminate].
  simpl in H.
  rewrite forallb_forall in Hdf, Ha.
  assert (Hw1 : List.length (values ts) = ncols).
  { apply Nat.eqb_eq. apply (Hdf ts). eapply nth_error_In. exact Hts. }
  assert (Hw2 : List.length row = ncols).
  { apply Nat.eqb_eq. apply (Ha row). eapply nth_error_In. exact Hrow. }
  split; [|split; assumption].
  destruct (List.length a =? List.length df)%nat.
  - injection H as <-. apply nth_error_map2; assumption.
  - destruct a as [|row' [|row'' a']]; try discriminate.
    injection H as <-.
    destruct i as [|i]; [|destruct i; discriminate].
    simpl in Hrow. injection Hrow as ->.
    rewrite nth_error_map, Hts. reflexivity.
Qed.

Lemma frame_imul_length (df : ScmRun) (a : list (list Q)) (adj : ScmRun) :
  frame_imul df a = Ok adj -> List.length adj = List.length df.
Proof.
  unfold frame_imul. intros H.
  destruct (forallb _ df && forallb _ a); [|discriminate].
  destruct (List.length a =? List.length df)%nat eqn:E.
  - injection H as <-. apply Nat.eqb_eq in E.
    rewrite length_map2. lia.
  - destruct a as [|row' [|row'' a']]; try discriminate.
    injection H as <-. apply length_map.
Qed.

(** Row [i] of the adjusted frame is row [i] of the selection, scaled by
    one minus the schedule built from entry [i] of the two vectors. *)
Lemma adjusted_row (scen : ScmRun) (rs : list Q) (ys : list Z)
  (reg0 adj : ScmRun) (i : nat) (ts : TimeSeries) (r : Q) (y : Z) :
  loc_reg_C02 scen = Ok reg0 ->
  adjusted_regions scen rs ys = Ok adj ->
  nth_error reg0 i = Some ts ->
  nth_error rs i = Some r -> nth_error ys i = Some y ->
  exists M row,
    R_phase rs ys = Ok M
    /\ nth_error M i = Some row
    /\ phase_row r y = Ok row
    /\ nth_error adj i = Some (scale ts (map (fun x => 1 - x) row))
    /\ List.length (values ts) = ncols /\ List.length row = ncols.
Proof.
  intros Hreg Hadj Hts Hr Hy. unfold adjusted_regions in Hadj.
  apply bind_Ok in Hadj. destruct Hadj as [M [HM Hadj]].
  rewrite Hreg in Hadj. simpl in Hadj.
  pose proof HM as HM0.
  apply R_phase_Ok in HM. destruct HM as [_ HM].
  destruct (HM i r Hr) as [y' [row [Hy' [Hrow Hphase]]]].
  assert (y' = y) by congruence. subst y'.
  exists M, row. split; [exact HM0|]. split; [exact Hrow|].
  split; [exact Hphase|].
  assert (Hrow' : nth_error (one_minus M) i = Some (map (fun x => 1 - x) row)).
  { unfold one_minus. rewrite nth_error_map, Hrow. reflexivity. }
  destruct (frame_imul_nth _ _ _ _ _ _ Hadj Hts Hrow') as [H1 [H2 H3]].
  split; [exact H1|]. split; [exact H2|].
  rewrite length_map in H3. exact H3.
Qed.

Lemma scale_nth (ts : TimeSeries) (row : list Q) (k : nat) :
  (k < List.length (values ts))%nat -> (k < List.length row)%nat ->
  nth k (values (scale ts (map (fun x => 1 - x) row))) 0
  = nth k (values ts) 0 * (1 - nth k row 0).
Proof.
  intros H1 H2. simpl.
  rewrite (nth_map2 Qmult 0 (1 - 0) 0) by (rewrite ?length_map; assumption).
  rewrite (map_nth (fun x => 1 - x)). reflexivity.
Qed.

(** On the adjusted frame, before the reassembly: when the R5OECD row sits
    at position [i] of the regional frame and entry [i] of the vectors is
    [r = 1/2] with target year 2075, the adjusted value of that row at 2050
    is the baseline value [X] times
    [1 - 0.5 * (2050 - 2025) / (2075 - 2025)], that is [X * 0.75]. *)
Theorem oecd_2050_scaled_by_three_quarters (scen : ScmRun) (rs : list Q)
  (ys : list Z) (reg0 adj : ScmRun) (i : nat) (ts : TimeSeries) (r X : Q) :
  loc_reg_C02 scen = Ok reg0 ->
  adjusted_regions scen rs ys = Ok adj ->
  nth_error reg0 i = Some ts ->
  region (meta ts) = "World|R5OECD" ->
  at_year (values ts) 2050 = X ->
  nth_error rs i = Some r -> r == 1#2 ->
  nth_error ys i = Some 2075%Z ->
  exists ts',
    nth_error adj i = Some ts'
    /\ meta ts' = meta ts
    /\ at_year (values ts') 2050
       == X * (1 - (1#2) * inject_Z (2050 - 2025) / inject_Z (2075 - 2025))
    /\ at_year (values ts') 2050 == X * (3#4).
Proof.
  intros Hreg Hadj Hts _ HX Hr Hr12 Hy.
  destruct (adjusted_row _ _ _ _ _ _ _ _ _ Hreg Hadj Hts Hr Hy)
    as [M [row [HM [HMi [Hrow [Hnth [Hw1 Hw2]]]]]]].
  rewrite phase_row_ok in Hrow by lia. injection Hrow as <-.
  exists (scale ts (map (fun x => 1 - x) (schedule r 2075))).
  split; [exact Hnth|]. split; [reflexivity|].
  assert (Hval : at_year (values (scale ts (map (fun x => 1 - x)
                                              (schedule r 2075)))) 2050
                 == X * (3#4)).
  { unfold at_year in *. change (Z.to_nat (2050 - 2000)) with 50%nat in *.
    rewrite scale_nth by (rewrite ?Hw1, ?Hw2; vm_compute; lia).
    rewrite HX.
    pose proof (at_year_ramp r 2075 2050 ltac:(lia) ltac:(lia)) as Hs.
    unfold at_year in Hs. change (Z.to_nat (2050 - 2000)) with 50%nat in Hs.
    rewrite Hs, Hr12. simpl. field. }
  split; [|exact Hval].
  rewrite Hval. simpl. field.
Qed.

Lemma oecd_2050_scaled_by_three_quarters_witness :
  exists ts',
    nth_error
      (match adjusted_regions sample_scen [0; 0; 0; 0; 1#2]
               [2050; 2050; 2050; 2050; 2075]%Z with
       | Ok adj => adj
       | Raise _ => []
       end) 4 = Some ts'
    /\ meta ts' = meta sample_oecd
    /\ at_year (values ts') 2050
       == 5 * (1 - (1#2) * inject_Z (2050 - 2025) / inject_Z (2075 - 2025))
    /\ at_year (values ts') 2050 == 5 * (3#4).
Proof.
  eapply (oecd_2050_scaled_by_three_quarters sample_scen [0; 0; 0; 0; 1#2]
            [2050; 2050; 2050; 2050; 2075]%Z _ _ 4 sample_oecd (1#2) 5).
  - vm_compute. reflexivity.
  - vm_compute. reflexivity.
  - reflexivity.
  - reflexivity.
  - reflexivity.
  - reflexivity.
  - reflexivity.
  - reflexivity.
Defined.

(** C8: a region whose reduction fraction is 0, with any target year from
    2025 to 2100, keeps its series: every adjusted value equals the value
    before the adjustment, and the metadata is the same. *)
Theorem zero_fraction_keeps_series (scen : ScmRun) (rs : list Q)
  (ys : list Z) (reg0 adj : ScmRun) (i : nat) (ts : TimeSeries) (r : Q)
  (y : Z) :
  loc_reg_C02 scen = Ok reg0 ->
  adjusted_regions scen rs ys = Ok adj ->
  nth_error reg0 i = Some ts ->
  nth_error rs i = Some r -> r == 0 ->
  nth_error ys i = Some y -> (2025 <= y <= 2100)%Z ->
  exists ts',
    nth_error adj i = Some ts'
    /\ meta ts' = meta ts
    /\ List.length (values ts') = List.length (values ts)
    /\ forall k, (k < List.length (values ts))%nat ->
         nth k (values ts') 0 == nth k (values ts) 0.
Proof.
  intros Hreg Hadj Hts Hr Hr0 Hy Hyr.
  destruct (adjusted_row _ _ _ _ _ _ _ _ _ Hreg Hadj Hts Hr Hy)
    as [M [row [HM [HMi [Hrow [Hnth [Hw1 Hw2]]]]]]].
  rewrite phase_row_ok in Hrow by lia. injection Hrow as <-.
  exists (scale ts (map (fun x => 1 - x) (schedule r y))).
  split; [exact Hnth|]. split; [reflexivity|]. split.
  - cbn [values scale]. rewrite length_map2, length_map, Hw1, Hw2.
    apply Nat.min_id.
  - intros k Hk.
    rewrite scale_nth by (rewrite ?Hw2, <- ?Hw1; exact Hk).
    rewrite schedule_zero; [ring|exact Hr0|exact Hyr|].
    rewrite Hw1 in Hk. exact Hk.
Qed.

Lemma zero_fraction_keeps_series_witness :
  exists ts',
    nth_error
      (match adjusted_regions sample_scen [0; 0; 0; 0; 1#2]
               [2025; 2050; 2050; 2050; 2075]%Z with
       | Ok adj => adj
       | Raise _ => []
       end) 0 = Some ts'
    /\ meta ts' = sample_meta "World|R5LAM" var
    /\ List.length (values ts') = List.length (flat 1)
    /\ forall k, (k < List.length (flat 1))%nat ->
         nth k (values ts') 0 == nth k (flat 1) 0.
Proof.
  eapply (zero_fraction_keeps_series sample_scen [0; 0; 0; 0; 1#2]
            [2025; 2050; 2050; 2050; 2075]%Z _ _ 0
            (mkTS (sample_meta "World|R5LAM" var) (flat 1)) 0 2025%Z).
  - vm_compute. reflexivity.
  - vm_compute. reflexivity.
  - reflexivity.
  - reflexivity.
  - reflexivity.
  - reflexivity.
  - lia.
Defined.

(** C10: for a reduction fraction [r] in [0,1] and a target year from 2025 to
    2100, every entry of the region's schedule lies in [0, r]; every adjusted
    value is the original value times a factor in [1 - r, 1]; so a
    non-negative original value gives an adjusted value that is non-negative
    and not above the original. *)
Theorem adjusted_values_bounded (scen : ScmRun) (rs : list Q) (ys : list Z)
  (reg0 adj : ScmRun) (i : nat) (ts : TimeSeries) (r : Q) (y : Z) :
  loc_reg_C02 scen = Ok reg0 ->
  adjusted_regions scen rs ys = Ok adj ->
  nth_error reg0 i = Some ts ->
  nth_error rs i = Some r -> 0 <= r <= 1 ->
  nth_error ys i = Some y -> (2025 <= y <= 2100)%Z ->
  exists M row ts',
    R_phase rs ys = Ok M
    /\ nth_error M i = Some row
    /\ nth_error adj i = Some ts'
    /\ forall k, (k < ncols)%nat ->
         0 <= nth k row 0 <= r
         /\ 1 - r <= 1 - nth k row 0 <= 1
         /\ nth k (values ts') 0 = nth k (values ts) 0 * (1 - nth k row 0)
         /\ (0 <= nth k (values ts) 0 ->
             0 <= nth k (values ts') 0 <= nth k (values ts) 0).
Proof.
  intros Hreg Hadj Hts Hr Hr01 Hy Hyr.
  destruct (adjusted_row _ _ _ _ _ _ _ _ _ Hreg Hadj Hts Hr Hy)
    as [M [row [HM [HMi [Hrow [Hnth [Hw1 Hw2]]]]]]].
  exists M, row, (scale ts (map (fun x => 1 - x) row)).
  split; [exact HM|]. split; [exact HMi|]. split; [exact Hnth|].
  rewrite phase_row_ok in Hrow by lia. injection Hrow as <-.
  intros k Hk.
  pose proof (schedule_bounds r y k (proj1 Hr01) Hyr Hk) as Hs.
  split; [exact Hs|]. split; [lra|].
  rewrite scale_nth by (rewrite ?Hw1, ?Hw2; exact Hk).
  split; [reflexivity|].
  intros Hx. nra.
Qed.

Lemma adjusted_values_bounded_witness :
  exists M row ts',
    R_phase [0; 0; 0; 0; 1#2] [2025; 2050; 2050; 2050; 2075]%Z = Ok M
    /\ nth_error M 4 = Some row
    /\ nth_error
         (match adjusted_regions sample_scen [0; 0; 0; 0; 1#2]
                  [2025; 2050; 2050; 2050; 2075]%Z with
          | Ok adj => adj
          | Raise _ => []
          end) 4 = Some ts'
    /\ forall k, (k < ncols)%nat ->
         0 <= nth k row 0 <= 1#2
         /\ 1 - (1#2) <= 1 - nth k row 0 <= 1
         /\ nth k (values ts') 0 = nth k (flat 5) 0 * (1 - nth k row 0)
         /\ (0 <= nth k (flat 5) 0 ->
             0 <= nth k (values ts') 0 <= nth k (flat 5) 0).
Proof.
  eapply (adjusted_values_bounded sample_scen [0; 0; 0; 0; 1#2]
            [2025; 2050; 2050; 2050; 2075]%Z _ _ 4 sample_oecd (1#2) 2075%Z).
  - vm_compute. reflexivity.
  - vm_compute. reflexivity.
  - reflexivity.
  - reflexivity.
  - lra.
  - reflexivity.
  - lia.
Defined.

(** * Properties of the reassembly *)

(** The function succeeds exactly when its four fallible steps do, and then
    returns the rows it kept followed by the replacement rows. *)
Lemma modify_scenario_Ok (scen : ScmRun) (rs : list Q) (ys : list Z)
  (out : ScmRun) :
  modify_scenario scen rs ys = Ok out
  <-> exists adj r5,
        adjusted_regions scen rs ys = Ok adj
        /\ loc_regions (r5_meta scen) regions_to_modify = Ok r5
        /\ S (List.length adj) = List.length (world_meta scen ++ r5)%list
        /\ out = (base_run scen
                  ++ map2 mkTS (world_meta scen ++ r5)
                          (frame_sum adj :: map values adj))%list.
Proof.
  unfold modify_scenario, adjusted_regions, data_frame.
  fold (base_run scen). fold (replacement_meta_template scen).
  fold (r5_meta scen). fold (world_meta scen).
  split.
  - intros H.
    apply bind_Ok in H. destruct H as [R [HR H]].
    apply bind_Ok in H. destruct H as [reg0 [Hreg0 H]].
    apply bind_Ok in H. destruct H as [adj [Hadj H]].
    apply bind_Ok in H. destruct H as [r5 [Hr5 H]].
    apply bind_Ok in H. destruct H as [rep [Hrep H]].
    injection H as <-.
    exists adj, r5. rewrite HR, Hreg0. simpl.
    split; [exact Hadj|]. split; [exact Hr5|].
    destruct (List.length (frame_sum adj :: map values adj)
              =? List.length (world_meta scen ++ r5)%list)%nat eqn:E;
      [|discriminate].
    injection Hrep as <-. apply Nat.eqb_eq in E.
    simpl in E. rewrite length_map in E. split; [exact E|reflexivity].
  - intros [adj [r5 [Hadj [Hr5 [Hlen ->]]]]].
    apply bind_Ok in Hadj. destruct Hadj as [R [HR Hadj]].
    apply bind_Ok in Hadj. destruct Hadj as [reg0 [Hreg0 Hadj]].
    rewrite HR, Hreg0. cbn [bind]. rewrite Hadj. cbn [bind].
    rewrite Hr5. cbn [bind List.length].
    rewrite length_map, Hlen, Nat.eqb_refl. reflexivity.
Qed.

Lemma isin_In (s : string) (l : list string) : isin s l = true <-> In s l.
Proof.
  unfold isin. rewrite existsb_exists. split.
  - intros [x [Hx Heq]]. apply String.eqb_eq in Heq. subst. exact Hx.
  - intros H. exists s. split; [exact H|apply String.eqb_refl].
Qed.

Lemma isin_cons (s g : string) (regs : list string) :
  isin s (g :: regs) = (s =? g)%string || isin s regs.
Proof. reflexivity. Qed.

Section Counting.

Context {A : Type} (key : A -> string).

Lemma length_filter_isin_cons (l : list A) (g : string)
  (regs : list string) :
  ~ In g regs ->
  List.length (filter (fun x => isin (key x) (g :: regs)) l)
  = (List.length (filter (fun x => String.eqb (key x) g) l)
     + List.length (filter (fun x => isin (key x) regs) l))%nat.
Proof.
  intros Hg. induction l as [|x l IH]; [reflexivity|].
  cbn [filter]. rewrite isin_cons.
  destruct (key x =? g) eqn:E; cbn [orb].
  - apply String.eqb_eq in E.
    destruct (isin (key x) regs) eqn:E'.
    + apply isin_In in E'. congruence.
    + cbn [List.length]. rewrite IH. reflexivity.
  - destruct (isin (key x) regs); cbn [List.length]; rewrite IH; lia.
Qed.

(** The rows picked label by label are as many as the rows carrying one
    of the labels, when no label is listed twice. *)
Lemma length_flat_map_labels (l : list A) (regs : list string) :
  NoDup regs ->
  List.length (flat_map (fun g => filter (fun x => key x =? g) l) regs)
  = List.length (filter (fun x => isin (key x) regs) l).
Proof.
  induction 1 as [|g regs Hg Hnd IH].
  - cbn [flat_map isin existsb].
    induction l as [|x l IHl]; [reflexivity|exact IHl].
  - cbn [flat_map]. rewrite length_app, IH.
    symmetry. apply length_filter_isin_cons. exact Hg.
Qed.

Lemma filter_all (p : A -> bool) (l : list A) :
  (forall x, In x l -> p x = true) -> filter p l = l.
Proof.
  induction l as [|x l IH]; intros H; [reflexivity|].
  simpl. rewrite (H x (or_introl eq_refl)).
  rewrite IH; [reflexivity|]. intros y Hy. apply H. right. exact Hy.
Qed.

End Counting.

Lemma filter_complement_length {A : Type} (p : A -> bool) (l : list A) :
  (List.length (filter (fun x => Bool.eqb (p x) false) l)
   + List.length (filter (fun x => Bool.eqb (p x) true) l))%nat
  = List.length l.
Proof.
  induction l as [|x l IH]; [reflexivity|].
  simpl. destruct (p x); simpl; lia.
Qed.

Lemma loc_regions_Ok (m : list Meta) (regs : list string) (r5 : list Meta) :
  loc_regions m regs = Ok r5 ->
  r5 = flat_map (fun g => filter (fun x => region x =? g) m) regs.
Proof.
  unfold loc_regions. intros H.
  apply bind_Ok in H. destruct H as [chunks [Hchunks H]].
  injection H as <-.
  revert chunks Hchunks.
  induction regs as [|g regs IH]; intros chunks H; simpl in H.
  - injection H as <-. reflexivity.
  - apply bind_Ok in H. destruct H as [c [Hc H]].
    apply bind_Ok in H. destruct H as [cs [Hcs H]].
    injection H as <-. cbn [List.concat flat_map].
    rewrite (IH cs Hcs).
    destruct (filter (fun x => region x =? g) m) eqn:E; [discriminate|].
    injection Hc as <-. reflexivity.
Qed.

Lemma regions_to_modify_NoDup : NoDup regions_to_modify.
Proof.
  unfold regions_to_modify.
  repeat (constructor; [simpl; intuition discriminate|]).
  constructor.
Qed.

Lemma World_not_modified : ~ In "World" regions_to_modify.
Proof. simpl. intuition discriminate. Qed.

Lemma template_In (scen : ScmRun) (ts : TimeSeries) :
  In ts (replacement_meta_template scen)
  <-> In ts scen
      /\ variable (meta ts) = var
      /\ In (region (meta ts)) regions_to_replace.
Proof.
  unfold replacement_meta_template, filter_variable_region.
  rewrite filter_In, Bool.eqb_true_iff, andb_true_iff, String.eqb_eq, isin_In.
  reflexivity.
Qed.

Lemma base_run_In (scen : ScmRun) (ts : TimeSeries) :
  In ts (base_run scen)
  <-> In ts scen
      /\ (variable (meta ts) <> var
          \/ ~ In (region (meta ts)) regions_to_replace).
Proof.
  unfold base_run, filter_variable_region.
  rewrite filter_In, Bool.eqb_true_iff, andb_false_iff.
  rewrite <- !not_true_iff_false, String.eqb_eq, isin_In.
  reflexivity.
Qed.

(** The replacement block has one entry of metadata for every row of the
    template. *)
Lemma combined_meta_length (scen : ScmRun) (r5 : list Meta) :
  loc_regions (r5_meta scen) regions_to_modify = Ok r5 ->
  List.length (world_meta scen ++ r5)%list
  = List.length (replacement_meta_template scen).
Proof.
  intros Hr5. apply loc_regions_Ok in Hr5. subst r5.
  rewrite length_app.
  rewrite (length_flat_map_labels region) by exact regions_to_modify_NoDup.
  unfold world_meta, r5_meta, filter_region.
  rewrite (filter_all (fun x => isin (region x) regions_to_modify)).
  2:{ intros x Hx. apply in_map_iff in Hx. destruct Hx as [ts [<- Hts]].
      apply filter_In in Hts. apply Hts. }
  rewrite !length_map.
  set (T := replacement_meta_template scen).
  assert (HT : List.length T
               = (List.length
                    (filter (fun ts => String.eqb (region (meta ts)) "World") T)
                  + List.length
                      (filter (fun ts => isin (region (meta ts))
                                              regions_to_modify) T))%nat).
  { rewrite <- (length_filter_isin_cons (fun ts => region (meta ts)) T
                  "World" regions_to_modify World_not_modified).
    f_equal. symmetry. apply filter_all.
    intros ts Hts. apply template_In in Hts. apply isin_In, Hts. }
  rewrite HT. f_equal. f_equal. apply filter_ext. intros ts.
  cbn [isin existsb]. apply orb_false_r.
Qed.

Lemma map2_mkTS_meta (metas : list Meta) :
  forall (vals : list (list Q)) (ts : TimeSeries),
    In ts (map2 mkTS metas vals) -> In (meta ts) metas.
Proof.
  induction metas as [|m metas IH]; intros [|v vals] ts H; simpl in H;
    try contradiction.
  destruct H as [<-|H]; [left; reflexivity|right; eapply IH; exact H].
Qed.

(** Every entry of the combined metadata comes from a row of the template:
    it carries the fossil CO2 variable and one of the six regions. *)
Lemma combined_meta_In (scen : ScmRun) (r5 : list Meta) (m : Meta) :
  loc_regions (r5_meta scen) regions_to_modify = Ok r5 ->
  In m (world_meta scen ++ r5)%list ->
  variable m = var /\ In (region m) regions_to_replace.
Proof.
  intros Hr5 Hm. apply loc_regions_Ok in Hr5. subst r5.
  assert (Hfrom : exists ts, In ts (replacement_meta_template scen)
                             /\ meta ts = m).
  { apply in_app_or in Hm. destruct Hm as [Hm|Hm].
    - unfold world_meta in Hm. apply in_map_iff in Hm.
      destruct Hm as [ts [<- Hts]]. apply filter_In in Hts.
      exists ts. split; [apply Hts|reflexivity].
    - apply in_flat_map in Hm. destruct Hm as [g [_ Hm]].
      apply filter_In in Hm. destruct Hm as [Hm _].
      unfold r5_meta in Hm. apply in_map_iff in Hm.
      destruct Hm as [ts [<- Hts]]. apply filter_In in Hts.
      exists ts. split; [apply Hts|reflexivity]. }
  destruct Hfrom as [ts [Hts <-]]. apply template_In in Hts. apply Hts.
Qed.

Lemma base_run_idempotent (scen : ScmRun) :
  base_run (base_run scen) = base_run scen.
Proof.
  apply filter_all. intros ts Hts.
  unfold base_run, filter_variable_region in Hts.
  apply filter_In in Hts. apply Hts.
Qed.

(** C6: reassembly keeps the number of rows, and every row whose region is
    not one of World and the five regions, or whose variable is not the
    fossil CO2 variable, is in the reassembled dataset as it was, all its
    fields included; these rows are also in the same order as before. *)
Theorem reassembly_keeps_other_rows (scen : ScmRun) (rs : list Q)
  (ys : list Z) (out : ScmRun) :
  modify_scenario scen rs ys = Ok out ->
  List.length out = List.length scen
  /\ (forall ts,
        In ts scen ->
        ~ In (region (meta ts)) regions_to_replace
        \/ variable (meta ts) <> var ->
        In ts out)
  /\ base_run out = base_run scen.
Proof.
  intros H. apply modify_scenario_Ok in H.
  destruct H as [adj [r5 [Hadj [Hr5 [Hlen ->]]]]].
  split; [|split].
  - rewrite length_app, length_map2. cbn [List.length].
    rewrite length_map, <- Hlen, Nat.min_id, Hlen.
    rewrite (combined_meta_length scen r5 Hr5).
    apply (filter_complement_length
             (fun ts => (variable (meta ts) =? var)%string
                        && isin (region (meta ts)) regions_to_replace)).
  - intros ts Hts Hother. apply in_or_app. left.
    apply base_run_In. split; [exact Hts|]. tauto.
  - unfold base_run at 1. unfold filter_variable_region.
    rewrite filter_app. fold (filter_variable_region var regions_to_replace
                                false (base_run scen)).
    fold (base_run (base_run scen)). rewrite base_run_idempotent.
    rewrite <- (app_nil_r (base_run scen)) at 2. f_equal.
    match goal with
    | |- filter ?p ?l = [] =>
        assert (Hnone : forallb (fun x => negb (p x)) l = true)
    end.
    { apply forallb_forall. intros ts Hts.
      apply map2_mkTS_meta in Hts.
      destruct (combined_meta_In scen r5 (meta ts) Hr5 Hts) as [Hv Hg].
      apply String.eqb_eq in Hv. apply isin_In in Hg.
      rewrite Hv, Hg. reflexivity. }
    induction (map2 mkTS (world_meta scen ++ r5)
                    (frame_sum adj :: map values adj)) as [|ts l IH];
      [reflexivity|].
    simpl in Hnone. apply andb_true_iff in Hnone. destruct Hnone as [H1 H2].
    simpl. apply negb_true_iff in H1. rewrite H1. apply IH, H2.
Qed.

Lemma reassembly_keeps_other_rows_witness :
  List.length sample_out = List.length sample_scen
  /\ (forall ts,
        In ts sample_scen ->
        ~ In (region (meta ts)) regions_to_replace
        \/ variable (meta ts) <> var ->
        In ts sample_out)
  /\ base_run sample_out = base_run sample_scen.
Proof.
  apply (reassembly_keeps_other_rows sample_scen sample_rs sample_ys).
  vm_compute. reflexivity.
Defined.

(** ** The expected schema and the world total *)

Lemma filter_andb {A : Type} (p q : A -> bool) (l : list A) :
  filter (fun x => p x && q x) l = filter q (filter p l).
Proof.
  induction l as [|x l IH]; [reflexivity|].
  simpl. destruct (p x); simpl; [destruct (q x)|]; rewrite IH; reflexivity.
Qed.

Lemma length_flat_map_singletons {A B : Type} (f : A -> list B) (l : list A) :
  (forall x, In x l -> List.length (f x) = 1%nat) ->
  List.length (flat_map f l) = List.length l.
Proof.
  induction l as [|x l IH]; intros H; [reflexivity|].
  cbn [flat_map]. rewrite length_app, (H x (or_introl eq_refl)), IH.
  - reflexivity.
  - intros y Hy. apply H. right. exact Hy.
Qed.

Lemma fossil_rows_count (scen : ScmRun) (regs : list string) :
  NoDup regs ->
  (forall g, In g regs -> List.length (fossil_rows g scen) = 1%nat) ->
  List.length (filter (fun ts => (variable (meta ts) =? var)%string
                                 && isin (region (meta ts)) regs) scen)
  = List.length regs.
Proof.
  intros Hnd Hone.
  rewrite filter_andb.
  rewrite <- (length_flat_map_labels (fun ts => region (meta ts))) by exact Hnd.
  apply length_flat_map_singletons. intros g Hg.
  rewrite <- filter_andb. apply Hone, Hg.
Qed.

Lemma regions_to_replace_NoDup : NoDup regions_to_replace.
Proof.
  constructor; [exact World_not_modified|exact regions_to_modify_NoDup].
Qed.

Lemma template_length (scen : ScmRun) :
  expected_schema scen -> List.length (replacement_meta_template scen) = 6%nat.
Proof.
  intros [Hone _].
  unfold replacement_meta_template, filter_variable_region.
  rewrite (filter_ext _ (fun ts => (variable (meta ts) =? var)%string
                                   && isin (region (meta ts))
                                           regions_to_replace))
    by (intros ts; apply Bool.eqb_true_iff;
        destruct (_ && _); reflexivity).
  rewrite fossil_rows_count; [reflexivity|exact regions_to_replace_NoDup|].
  exact Hone.
Qed.

Lemma schema_has_fossil_row (scen : ScmRun) (g : string) :
  expected_schema scen -> In g regions_to_replace ->
  exists ts, In ts scen /\ variable (meta ts) = var /\ region (meta ts) = g.
Proof.
  intros [Hone _] Hg. specialize (Hone g Hg).
  destruct (fossil_rows g scen) as [|ts l] eqn:E; [discriminate|].
  assert (Hts : In ts (fossil_rows g scen)) by (rewrite E; left; reflexivity).
  unfold fossil_rows in Hts. apply filter_In in Hts.
  destruct Hts as [Hin Hp]. apply andb_true_iff in Hp.
  destruct Hp as [Hv Hr]. apply String.eqb_eq in Hv, Hr.
  exists ts. repeat split; assumption.
Qed.

(** On the expected schema the selection of lines 93-103 is the five
    regional fossil CO2 rows, in the order of the frame. *)
Lemma schema_selection (scen : ScmRun) :
  expected_schema scen ->
  loc_reg_C02 scen
  = Ok (filter (fun ts => (variable (meta ts) =? var)%string
                          && isin (region (meta ts)) regions_to_modify) scen).
Proof.
  intros Hs. pose proof Hs as [Hone Hrows].
  destruct (schema_has_fossil_row scen "World" Hs (or_introl eq_refl))
    as [w [Hw [Hwv _]]].
  unfold loc_reg_C02.
  assert (E1 : existsb (fun ts => (unit (meta ts) =? "Gt C / yr")%string) scen
               = true).
  { apply existsb_exists. exists w. split; [exact Hw|].
    apply String.eqb_eq. apply (Hrows w Hw Hwv). }
  assert (E2 : existsb (fun ts => (variable (meta ts) =? var)%string) scen
               = true).
  { apply existsb_exists. exists w. split; [exact Hw|].
    apply String.eqb_eq. exact Hwv. }
  rewrite E1, E2. cbn [negb orb]. f_equal.
  apply filter_ext_in. intros ts Hts.
  destruct (variable (meta ts) =? var)%string eqn:Ev;
    [|rewrite andb_false_r; reflexivity].
  apply String.eqb_eq in Ev.
  destruct (Hrows ts Hts Ev) as [Hu Hg].
  apply String.eqb_eq in Hu. rewrite Hu. rewrite !andb_true_r. cbn [andb].
  destruct Hg as [Hg|[Hg|Hg]].
  - rewrite <- Hg. reflexivity.
  - rewrite <- Hg. reflexivity.
  - unfold regions_to_modify in *. simpl in Hg.
    repeat (destruct Hg as [Hg|Hg]; [rewrite <- Hg; reflexivity|]).
    contradiction.
Qed.

Lemma schema_selection_length (scen : ScmRun) :
  expected_schema scen ->
  List.length (filter (fun ts => (variable (meta ts) =? var)%string
                                 && isin (region (meta ts)) regions_to_modify)
                      scen)
  = 5%nat.
Proof.
  intros [Hone _].
  rewrite fossil_rows_count; [reflexivity|exact regions_to_modify_NoDup|].
  intros g Hg. apply Hone. right. exact Hg.
Qed.

Lemma frame_imul_meta (df : ScmRun) (a : list (list Q)) (adj : ScmRun) :
  frame_imul df a = Ok adj -> map meta adj = map meta df.
Proof.
  unfold frame_imul. intros H.
  destruct (forallb _ df && forallb _ a); [|discriminate].
  destruct (List.length a =? List.length df)%nat eqn:E.
  - injection H as <-. apply Nat.eqb_eq in E.
    revert a E. induction df as [|ts df IH]; intros [|row a] E;
      simpl in *; try discriminate; try reflexivity.
    f_equal. apply IH. lia.
  - destruct a as [|row' [|row'' a']]; try discriminate.
    injection H as <-. rewrite map_map. reflexivity.
Qed.

Lemma filter_map_fixed {A : Type} (p : A -> bool) (f : A -> A) (l : list A) :
  (forall x, p (f x) = p x) -> (forall x, p x = true -> f x = x) ->
  filter p (map f l) = filter p l.
Proof.
  intros Hp Hf. induction l as [|x l IH]; [reflexivity|].
  simpl. rewrite Hp. destruct (p x) eqn:E; rewrite IH; [|reflexivity].
  rewrite (Hf x E). reflexivity.
Qed.

Lemma filter_map_commute {A : Type} (p : A -> bool) (f : A -> A)
  (l : list A) :
  (forall x, p (f x) = p x) -> filter p (map f l) = map f (filter p l).
Proof.
  intros Hp. induction l as [|x l IH]; [reflexivity|].
  simpl. rewrite Hp. destruct (p x); simpl; rewrite IH; reflexivity.
Qed.

Lemma existsb_map {A : Type} (p : A -> bool) (f : A -> A) (l : list A) :
  (forall x, p (f x) = p x) -> existsb p (map f l) = existsb p l.
Proof.
  intros Hp. induction l as [|x l IH]; [reflexivity|].
  simpl. rewrite Hp, IH. reflexivity.
Qed.

(** The function does not look at the values of the World fossil CO2 rows:
    with other values there it behaves the same. *)
Lemma modify_scenario_ignores_world (v : list Q) (scen : ScmRun)
  (rs : list Q) (ys : list Z) :
  modify_scenario (with_world_values v scen) rs ys
  = modify_scenario scen rs ys.
Proof.
  set (f := fun ts => if (variable (meta ts) =? var)%string
                         && (region (meta ts) =? "World")%string
                      then mkTS (meta ts) v else ts).
  assert (Hmeta : forall ts, meta (f ts) = meta ts).
  { intros ts. unfold f. destruct (_ && _); reflexivity. }
  assert (Hloc : loc_reg_C02 (with_world_values v scen) = loc_reg_C02 scen).
  { unfold loc_reg_C02, with_world_values. fold f.
    rewrite !existsb_map by (intros ts; rewrite Hmeta; reflexivity).
    destruct (_ || _); [reflexivity|]. f_equal.
    apply filter_map_fixed.
    - intros ts. rewrite Hmeta. reflexivity.
    - intros ts Hp. unfold f.
      destruct (region (meta ts) =? "World")%string eqn:E;
        [|rewrite andb_false_r; reflexivity].
      apply String.eqb_eq in E. rewrite E in Hp. discriminate. }
  assert (Hbase : filter_variable_region var regions_to_replace false
                    (with_world_values v scen)
                  = filter_variable_region var regions_to_replace false scen).
  { unfold filter_variable_region, with_world_values. fold f.
    apply filter_map_fixed.
    - intros ts. rewrite Hmeta. reflexivity.
    - intros ts Hp. unfold f.
      destruct (variable (meta ts) =? var)%string eqn:Ev; [|reflexivity].
      destruct (region (meta ts) =? "World")%string eqn:E; [|reflexivity].
      apply String.eqb_eq in E. rewrite E in Hp. discriminate. }
  assert (Htemplate : forall regs,
            map meta (filter_region regs
                        (filter_variable_region var regions_to_replace true
                           (with_world_values v scen)))
            = map meta (filter_region regs
                          (filter_variable_region var regions_to_replace true
                             scen))).
  { intros regs. unfold filter_region, filter_variable_region,
      with_world_values. fold f.
    rewrite !filter_map_commute
      by (intros ts; rewrite Hmeta; reflexivity).
    rewrite map_map. apply map_ext. exact Hmeta. }
  unfold modify_scenario.
  rewrite Hloc, Hbase, !Htemplate. reflexivity.
Qed.

Lemma schema_world_meta (scen : ScmRun) :
  expected_schema scen ->
  exists w0, In w0 scen /\ world_meta scen = [meta w0].
Proof.
  intros [Hone _].
  assert (E : filter_region ["World"] (replacement_meta_template scen)
              = fossil_rows "World" scen).
  { unfold filter_region, replacement_meta_template, filter_variable_region,
      fossil_rows.
    rewrite <- filter_andb. apply filter_ext. intros ts.
    destruct (region (meta ts) =? "World")%string eqn:Ew.
    - apply String.eqb_eq in Ew. rewrite Ew.
      destruct (variable (meta ts) =? var)%string; reflexivity.
    - replace (isin (region (meta ts)) ["World"]) with false
        by (cbn [isin existsb]; rewrite Ew; reflexivity).
      rewrite !andb_false_r. reflexivity. }
  specialize (Hone "World" (or_introl eq_refl)).
  unfold world_meta. rewrite E.
  destruct (fossil_rows "World" scen) as [|w0 [|w1 l]] eqn:Ef;
    try discriminate.
  exists w0. split; [|reflexivity].
  assert (Hin : In w0 (fossil_rows "World" scen))
    by (rewrite Ef; left; reflexivity).
  unfold fossil_rows in Hin. apply filter_In in Hin. apply Hin.
Qed.

(** C5: on a scenario with the six expected rows, the World fossil CO2 row of
    the reassembled dataset holds, at every grid year, the sum over the five
    adjusted regional series of their values at that year; and the result is
    the same whatever values the World fossil CO2 row held before. *)
Theorem world_row_is_sum_of_adjusted (scen : ScmRun) (rs : list Q)
  (ys : list Z) (out : ScmRun) :
  expected_schema scen ->
  modify_scenario scen rs ys = Ok out ->
  exists adj,
    adjusted_regions scen rs ys = Ok adj
    /\ List.length adj = 5%nat
    /\ (forall ts, In ts adj ->
          In (region (meta ts)) regions_to_modify
          /\ variable (meta ts) = var)
    /\ (exists w, In w out /\ region (meta w) = "World"
                  /\ variable (meta w) = var)
    /\ (forall w, In w out -> region (meta w) = "World" ->
          variable (meta w) = var ->
          List.length (values w) = ncols
          /\ forall k, (k < ncols)%nat ->
               nth k (values w) 0
               = Qsum (map (fun ts => nth k (values ts) 0) adj))
    /\ (forall v, modify_scenario (with_world_values v scen) rs ys = Ok out).
Proof.
  intros Hs H. pose proof H as Hout. apply modify_scenario_Ok in H.
  destruct H as [adj [r5 [Hadj [Hr5 [Hlen ->]]]]].
  exists adj. split; [exact Hadj|].
  pose proof Hadj as Hadj'. unfold adjusted_regions in Hadj'.
  apply bind_Ok in Hadj'. destruct Hadj' as [R [_ Hadj']].
  rewrite (schema_selection scen Hs) in Hadj'. cbn [bind] in Hadj'.
  pose proof (frame_imul_meta _ _ _ Hadj') as Hmeta.
  pose proof (frame_imul_length _ _ _ Hadj') as Hn.
  rewrite (schema_selection_length scen Hs) in Hn.
  split; [exact Hn|].
  destruct (schema_world_meta scen Hs) as [w0 [Hw0 Hwm]].
  assert (Hw0meta : variable (meta w0) = var /\ region (meta w0) = "World").
  { assert (Hin : In (meta w0) (world_meta scen ++ r5)%list)
      by (rewrite Hwm; left; reflexivity).
    unfold world_meta in Hwm.
    assert (Hin' : In (meta w0) (world_meta scen))
      by (unfold world_meta; rewrite Hwm; left; reflexivity).
    unfold world_meta in Hin'. apply in_map_iff in Hin'.
    destruct Hin' as [w [Hmw Hw]]. rewrite <- Hmw.
    unfold filter_region in Hw. apply filter_In in Hw.
    destruct Hw as [Hw Hg]. apply template_In in Hw.
    split; [apply Hw|].
    cbn [isin existsb] in Hg. rewrite orb_false_r in Hg.
    apply String.eqb_eq, Hg. }
  assert (Hr5reg : forall m, In m r5 -> In (region m) regions_to_modify).
  { intros m Hm. rewrite (loc_regions_Ok _ _ _ Hr5) in Hm.
    apply in_flat_map in Hm. destruct Hm as [g [Hg Hm]].
    apply filter_In in Hm. destruct Hm as [_ Hm].
    apply String.eqb_eq in Hm. rewrite Hm. exact Hg. }
  rewrite Hwm. cbn [app map2].
  split.
  { intros ts Hts.
    assert (Hm : In (meta ts) (map meta adj)) by (apply in_map; exact Hts).
    rewrite Hmeta in Hm. apply in_map_iff in Hm.
    destruct Hm as [ts0 [Heq Hts0]]. rewrite <- Heq.
    apply filter_In in Hts0. destruct Hts0 as [_ Hp].
    apply andb_true_iff in Hp. destruct Hp as [Hv Hg].
    split; [apply isin_In, Hg|apply String.eqb_eq, Hv]. }
  split.
  { exists (mkTS (meta w0) (frame_sum adj)). split.
    - apply in_or_app. right. left. reflexivity.
    - split; [apply Hw0meta|apply Hw0meta]. }
  split.
  { intros w Hw Hg Hv.
    assert (Hweq : w = mkTS (meta w0) (frame_sum adj)).
    { apply in_app_or in Hw. destruct Hw as [Hw|[Hw|Hw]].
      - apply base_run_In in Hw. destruct Hw as [_ [Hw|Hw]].
        + contradiction.
        + exfalso. apply Hw. rewrite Hg. left. reflexivity.
      - symmetry. exact Hw.
      - exfalso. apply map2_mkTS_meta in Hw. apply Hr5reg in Hw.
        rewrite Hg in Hw. exact (World_not_modified Hw). }
    subst w. cbn [values]. split.
    - unfold frame_sum. rewrite length_map, length_seq. reflexivity.
    - intros k Hk. unfold frame_sum.
      apply (nth_map_seq
               (fun j => Qsum (map (fun ts => nth j (values ts) 0) adj))).
      exact Hk. }
  intros v. rewrite modify_scenario_ignores_world.
  rewrite Hwm in Hout. exact Hout.
Qed.

Lemma sample_schema : expected_schema sample_scen.
Proof.
  split.
  - intros g Hg. unfold regions_to_replace, regions_to_modify in Hg.
    simpl in Hg.
    repeat (destruct Hg as [Hg|Hg]; [rewrite <- Hg; reflexivity|]).
    contradiction.
  - intros ts Hts Hv. unfold sample_scen in Hts. simpl in Hts.
    repeat (destruct Hts as [Hts|Hts];
            [rewrite <- Hts in *; first [discriminate Hv
                                        |split; [reflexivity|simpl; tauto]]|]).
    contradiction.
Qed.

Lemma sample_on_grid : on_grid sample_scen.
Proof. repeat constructor. Qed.

Lemma world_row_is_sum_of_adjusted_witness :
  exists adj,
    adjusted_regions sample_scen sample_rs sample_ys = Ok adj
    /\ List.length adj = 5%nat
    /\ (forall ts, In ts adj ->
          In (region (meta ts)) regions_to_modify
          /\ variable (meta ts) = var)
    /\ (exists w, In w sample_out /\ region (meta w) = "World"
                  /\ variable (meta w) = var)
    /\ (forall w, In w sample_out -> region (meta w) = "World" ->
          variable (meta w) = var ->
          List.length (values w) = ncols
          /\ forall k, (k < ncols)%nat ->
               nth k (values w) 0
               = Qsum (map (fun ts => nth k (values ts) 0) adj))
    /\ (forall v,
          modify_scenario (with_world_values v sample_scen)
                          sample_rs sample_ys
          = Ok sample_out).
Proof.
  apply (world_row_is_sum_of_adjusted sample_scen sample_rs sample_ys).
  - exact sample_schema.
  - vm_compute. reflexivity.
Defined.

(** ** Success and failure of the whole function *)

Lemma in_map2 {A B C : Type} (f : A -> B -> C) (l : list A) :
  forall (l' : list B) (c : C),
    In c (map2 f l l') -> exists a b, In a l /\ In b l' /\ c = f a b.
Proof.
  induction l as [|x l IH]; intros [|y l'] c H; simpl in H;
    try contradiction.
  destruct H as [<-|H].
  - exists x, y. simpl. auto.
  - destruct (IH l' c H) as [a [b [Ha [Hb ->]]]].
    exists a, b. simpl. auto.
Qed.

Lemma loc_regions_total (m : list Meta) (regs : list string) :
  (forall g, In g regs -> exists x, In x m /\ region x = g) ->
  exists r5, loc_regions m regs = Ok r5.
Proof.
  intros H. unfold loc_regions.
  assert (Hchunks : exists chunks,
            mapM (fun g => match filter (fun x => (region x =? g)%string) m with
                           | [] => Raise KeyError
                           | rows => Ok rows
                           end) regs = Ok chunks).
  { induction regs as [|g regs IH].
    - exists []. reflexivity.
    - destruct IH as [chunks Hc].
      { intros g' Hg'. apply H. right. exact Hg'. }
      destruct (H g (or_introl eq_refl)) as [x [Hx Hg]].
      assert (Hin : In x (filter (fun x => (region x =? g)%string) m)).
      { apply filter_In. split; [exact Hx|]. apply String.eqb_eq, Hg. }
      cbn [mapM]. rewrite Hc.
      destruct (filter (fun x => (region x =? g)%string) m) as [|x0 l];
        [contradiction|].
      eexists. reflexivity. }
  destruct Hchunks as [chunks Hc]. rewrite Hc. eexists. reflexivity.
Qed.

(** On a scenario with the six expected rows, every row on the grid, the
    function returns a run for five reduction fractions of any value and
    five target years on the grid from 2024 on. *)
Lemma modify_scenario_total (scen : ScmRun) (rs : list Q) (ys : list Z) :
  expected_schema scen -> on_grid scen ->
  List.length rs = 5%nat -> List.length ys = 5%nat ->
  Forall (fun y => 2024 <= y <= 2100)%Z ys ->
  exists out, modify_scenario scen rs ys = Ok out.
Proof.
  intros Hs Hgrid Hrs Hys Hyears.
  set (reg0 := filter (fun ts => (variable (meta ts) =? var)%string
                                 && isin (region (meta ts)) regions_to_modify)
                      scen).
  set (M := one_minus (map2 schedule rs ys)).
  assert (HM : List.length M = 5%nat).
  { unfold M, one_minus. rewrite length_map, length_map2, Hrs, Hys.
    reflexivity. }
  assert (Hadj : adjusted_regions scen rs ys = Ok (map2 scale reg0 M)).
  { unfold adjusted_regions.
    rewrite R_phase_total by (try exact Hyears; congruence).
    cbn [bind]. rewrite (schema_selection scen Hs). cbn [bind].
    fold reg0. fold M. unfold frame_imul.
    assert (E1 : forallb (fun ts => has_width ncols (values ts)) reg0 = true).
    { apply forallb_forall. intros ts Hts. apply Nat.eqb_eq.
      unfold on_grid in Hgrid. rewrite Forall_forall in Hgrid.
      apply Hgrid. apply filter_In in Hts. apply Hts. }
    assert (E2 : forallb (has_width ncols) M = true).
    { apply forallb_forall. intros row Hrow. apply Nat.eqb_eq.
      unfold M, one_minus in Hrow. apply in_map_iff in Hrow.
      destruct Hrow as [row0 [<- Hrow0]]. rewrite length_map.
      apply in_map2 in Hrow0. destruct Hrow0 as [r [y [_ [Hy ->]]]].
      rewrite Forall_forall in Hyears.
      apply schedule_length, Hyears, Hy. }
    rewrite E1, E2. cbn [andb].
    unfold reg0 at 1. rewrite (schema_selection_length scen Hs), HM.
    reflexivity. }
  destruct (loc_regions_total (r5_meta scen) regions_to_modify) as [r5 Hr5].
  { intros g Hg.
    destruct (schema_has_fossil_row scen g Hs (or_intror Hg))
      as [ts [Hts [Hv Hr]]].
    exists (meta ts). split; [|exact Hr].
    unfold r5_meta. apply in_map. unfold filter_region.
    apply filter_In. split.
    - apply template_In. split; [exact Hts|]. split; [exact Hv|].
      rewrite Hr. right. exact Hg.
    - apply isin_In. rewrite Hr. exact Hg. }
  eexists. apply modify_scenario_Ok.
  exists (map2 scale reg0 M), r5.
  split; [exact Hadj|]. split; [exact Hr5|]. split; [|reflexivity].
  rewrite (combined_meta_length scen r5 Hr5), (template_length scen Hs).
  rewrite length_map2, HM. unfold reg0.
  rewrite (schema_selection_length scen Hs). reflexivity.
Qed.

Lemma mapM_Raise {A B : Type} (f : A -> result B) (l : list A) (e : exn) :
  mapM f l = Raise e -> exists x, In x l /\ f x = Raise e.
Proof.
  induction l as [|x l IH]; intros H; simpl in H; [discriminate|].
  destruct (f x) as [y|e'] eqn:Hfx; simpl in H.
  - destruct (mapM f l) as [ys|e'] eqn:Hl; simpl in H; [discriminate|].
    injection H as ->. destruct (IH eq_refl) as [x' [Hx' Hfx']].
    exists x'. split; [right; exact Hx'|exact Hfx'].
  - injection H as ->. exists x. split; [left; reflexivity|exact Hfx].
Qed.

Lemma linspace_Raise (start stop : Q) (num : Z) (e : exn) :
  Np.linspace start stop num = Raise e -> e = ValueError.
Proof.
  unfold Np.linspace. destruct (num <? 0)%Z; intros H;
    [injection H as <-; reflexivity|discriminate].
Qed.

Lemma fill_row_Raise (sf : list Q) (ti : Z) (r : Q) (e : exn) :
  fill_row sf ti r = Raise e -> e = ValueError.
Proof.
  unfold fill_row, Np.set_slice. intros H.
  destruct (List.length sf =? _)%nat; [discriminate|].
  destruct sf as [|x [|x' sf']]; try discriminate;
    injection H as <-; reflexivity.
Qed.

(** With as many target years as reduction fractions, the only exception of
    the schedule construction is the ValueError of numpy. *)
Lemma R_phase_Raise (rs : list Q) (ys : list Z) (e : exn) :
  List.length ys = List.length rs ->
  R_phase rs ys = Raise e -> e = ValueError.
Proof.
  intros Hlen H. unfold R_phase in H.
  destruct (scale_factor rs ys) as [sfs|e'] eqn:Hsf; simpl in H.
  - apply mapM_Raise in H. destruct H as [i [Hi H]].
    apply in_seq in Hi. unfold R_phase_i in H.
    apply mapM_seq_Ok in Hsf. destruct Hsf as [Hsfs _].
    destruct (nth_error sfs i) as [sf|] eqn:E1;
      [|apply nth_error_None in E1; lia].
    destruct (nth_error ys i) as [y|] eqn:E2;
      [|apply nth_error_None in E2; lia].
    destruct (nth_error rs i) as [r|] eqn:E3;
      [|apply nth_error_None in E3; lia].
    unfold item in H. rewrite E1, target_index_nth, E2, E3 in H.
    simpl in H. eapply fill_row_Raise. exact H.
  - injection H as ->. apply mapM_Raise in Hsf. destruct Hsf as [i [Hi H]].
    apply in_seq in Hi. unfold scale_factor_i in H.
    destruct (nth_error ys i) as [y|] eqn:E2;
      [|apply nth_error_None in E2; lia].
    destruct (nth_error rs i) as [r|] eqn:E3;
      [|apply nth_error_None in E3; lia].
    unfold item in H. rewrite E3, ramp_duration_nth, E2 in H.
    simpl in H. eapply linspace_Raise. exact H.
Qed.


(** ** The range checks of the dialog *)

Lemma ask_until_accepted {A : Type} (accepted : option A -> bool)
  (answers : list (option A)) (x : A) (rest : list (option A)) :
  ask_until accepted answers = Some (x, rest) -> accepted (Some x) = true.
Proof.
  induction answers as [|a answers IH]; intros H; simpl in H; [discriminate|].
  destruct a as [x'|]; [|exact (IH H)].
  destruct (accepted (Some x')) eqn:E; [|exact (IH H)].
  injection H as <- _. exact E.
Qed.

Lemma r_accepted_range (r : Q) : r_accepted (Some r) = true <-> 0 <= r <= 1.
Proof.
  unfold r_accepted. rewrite andb_true_iff, !Qle_bool_iff. reflexivity.
Qed.

Lemma yr_accepted_range (y : Z) :
  yr_accepted (Some y) = true <-> (2025 <= y <= 2100)%Z.
Proof.
  unfold yr_accepted, START_YEAR, END_YEAR.
  rewrite !andb_true_iff, negb_true_iff, Z.eqb_neq, !Z.leb_le. lia.
Qed.

(** Whatever the user answers, the dialog hands over one pair per region, in
    the order of the regions, with the fraction in [0,1] and the year from
    2025 to 2100. *)
Lemma collect_targets_in_range (regions : list string) :
  forall (r_answers : list (option Q)) (yr_answers : list (option Z))
         (targets : list (string * (Q * Z))),
    collect_targets regions r_answers yr_answers = Some targets ->
    map fst targets = regions
    /\ Forall (fun t => 0 <= fst (snd t) <= 1
                        /\ (2025 <= snd (snd t) <= 2100)%Z) targets.
Proof.
  induction regions as [|g regions IH]; intros ra ya targets H; simpl in H.
  - injection H as <-. split; [reflexivity|constructor].
  - destruct (ask_until r_accepted ra) as [[r ra']|] eqn:Er; [|discriminate].
    destruct (ask_until yr_accepted ya) as [[y ya']|] eqn:Ey; [|discriminate].
    destruct (collect_targets regions ra' ya') as [t|] eqn:Et; [|discriminate].
    injection H as <-. destruct (IH ra' ya' t Et) as [Hfst Hall].
    split; [simpl; congruence|].
    constructor; [|exact Hall]. simpl. split.
    + apply r_accepted_range. eapply ask_until_accepted. exact Er.
    + apply yr_accepted_range. eapply ask_until_accepted. exact Ey.
Qed.




(** ** Labels and values of the replacement rows *)

Lemma map2_mkTS_regions (metas : list Meta) :
  forall vals : list (list Q),
    List.length vals = List.length metas ->
    map (fun ts => region (meta ts)) (map2 mkTS metas vals)
    = map region metas.
Proof.
  induction metas as [|m metas IH]; intros [|v vals] H; simpl in *;
    try discriminate; try reflexivity.
  f_equal. apply IH. lia.
Qed.

Lemma filter_region_singleton (m : list Meta) (g : string) :
  List.length (filter (fun x => (region x =? g)%string) m) = 1%nat ->
  map region (filter (fun x => (region x =? g)%string) m) = [g].
Proof.
  intros H.
  destruct (filter (fun x => (region x =? g)%string) m) as [|x [|x' l]] eqn:E;
    try discriminate.
  assert (Hx : In x (filter (fun x => (region x =? g)%string) m))
    by (rewrite E; left; reflexivity).
  apply filter_In in Hx. destruct Hx as [_ Hx].
  apply String.eqb_eq in Hx. simpl. rewrite Hx. reflexivity.
Qed.

Lemma length_filter_map {A B : Type} (p : B -> bool) (f : A -> B)
  (l : list A) :
  List.length (filter p (map f l))
  = List.length (filter (fun x => p (f x)) l).
Proof.
  induction l as [|x l IH]; [reflexivity|].
  simpl. destruct (p (f x)); simpl; rewrite IH; reflexivity.
Qed.

Lemma r5_meta_count (scen : ScmRun) (g : string) :
  expected_schema scen -> In g regions_to_modify ->
  List.length (filter (fun x => (region x =? g)%string) (r5_meta scen))
  = 1%nat.
Proof.
  intros [Hone _] Hg. rewrite <- (Hone g (or_intror Hg)).
  unfold r5_meta, filter_region, replacement_meta_template,
    filter_variable_region, fossil_rows.
  rewrite length_filter_map, <- !filter_andb. f_equal.
  apply filter_ext. intros ts.
  destruct (region (meta ts) =? g)%string eqn:E.
  - apply String.eqb_eq in E. rewrite E.
    assert (H1 : isin g regions_to_replace = true)
      by (apply isin_In; right; exact Hg).
    assert (H2 : isin g regions_to_modify = true) by (apply isin_In, Hg).
    rewrite H1, H2. destruct (variable (meta ts) =? var)%string; reflexivity.
  - rewrite !andb_false_r. reflexivity.
Qed.

(** On a scenario with the six expected rows the replacement rows come
    after the rows kept, labelled World and then the regions in the order of
    [regions_to_modify]; their values are the world total and then the rows
    of the adjusted frame in the order of the frame. *)
Lemma replacement_rows (scen : ScmRun) (rs : list Q) (ys : list Z)
  (out : ScmRun) :
  expected_schema scen ->
  modify_scenario scen rs ys = Ok out ->
  exists adj,
    adjusted_regions scen rs ys = Ok adj
    /\ map (fun ts => region (meta ts))
           (skipn (List.length (base_run scen)) out)
       = regions_to_replace
    /\ map values (skipn (List.length (base_run scen)) out)
       = frame_sum adj :: map values adj.
Proof.
  intros Hs H. apply modify_scenario_Ok in H.
  destruct H as [adj [r5 [Hadj [Hr5 [Hlen ->]]]]].
  exists adj. split; [exact Hadj|].
  rewrite skipn_app, Nat.sub_diag, skipn_all. cbn [skipn app].
  assert (Hvals : List.length (frame_sum adj :: map values adj)
                  = List.length (world_meta scen ++ r5)%list).
  { cbn [List.length]. rewrite length_map. exact Hlen. }
  split.
  - rewrite map2_mkTS_regions by exact Hvals.
    destruct (schema_world_meta scen Hs) as [w0 [Hw0 Hwm]].
    rewrite map_app.
    assert (Hw : map region (world_meta scen) = ["World"]).
    { assert (Hin : In (meta w0) (world_meta scen))
        by (rewrite Hwm; left; reflexivity).
      unfold world_meta in Hin. apply in_map_iff in Hin.
      destruct Hin as [w [Hmw Hin]]. apply filter_In in Hin.
      destruct Hin as [_ Hg]. cbn [isin existsb] in Hg.
      rewrite orb_false_r in Hg. apply String.eqb_eq in Hg.
      rewrite Hwm. simpl. rewrite <- Hmw, Hg. reflexivity. }
    rewrite Hw, (loc_regions_Ok _ _ _ Hr5).
    unfold regions_to_replace. cbn [app]. f_equal.
    unfold regions_to_modify at 1. cbn [flat_map].
    rewrite !map_app.
    rewrite !filter_region_singleton
      by (apply r5_meta_count; [exact Hs|simpl; tauto]).
    reflexivity.
  - clear Hadj Hr5 Hlen.
    revert Hvals. generalize (frame_sum adj :: map values adj).
    generalize (world_meta scen ++ r5)%list.
    intros metas. induction metas as [|m metas IH]; intros [|v vals] H;
      simpl in *; try discriminate; try reflexivity.
    f_equal. apply IH. lia.
Qed.

(** C4: the replacement rows are World and then the regions in the order of
    [regions_to_modify] (OECD, LAM, MAF, REF, ASIA), which is not the order
    LAM, MAF, ASIA, REF, OECD of the docstring and of the caller. *)
Theorem replacement_rows_ordered_by_regions_to_modify :
  exists out,
    modify_scenario sample_scen sample_rs sample_ys = Ok out
    /\ map (fun ts => region (meta ts))
           (skipn (List.length (base_run sample_scen)) out)
       = ["World"; "World|R5OECD"; "World|R5LAM"; "World|R5MAF";
          "World|R5REF"; "World|R5ASIA"]
    /\ map (fun ts => region (meta ts))
           (skipn (List.length (base_run sample_scen)) out)
       <> "World" :: REGIONS.
Proof.
  destruct (modify_scenario_total sample_scen sample_rs sample_ys
              sample_schema sample_on_grid eq_refl eq_refl) as [out Hout].
  { repeat constructor; simpl; lia. }
  exists out. split; [exact Hout|].
  destruct (replacement_rows sample_scen sample_rs sample_ys out
              sample_schema Hout) as [adj [_ [Hlabels _]]].
  rewrite Hlabels. split; [reflexivity|discriminate].
Qed.

(** C1: on the sample scenario, whose regional rows are in the order of the
    docstring, with the caller's vectors in the order of [REGIONS] and only
    R5OECD reduced (r = 1 by 2050), the row labelled R5OECD of the result
    holds the unchanged R5LAM series, and the R5OECD series, reduced by the
    R5OECD schedule, is labelled R5ASIA. *)
Theorem labels_do_not_follow_values :
  exists out oecd asia,
    modify_scenario sample_scen sample_rs sample_ys = Ok out
    /\ nth_error REGIONS 4 = Some "World|R5OECD"
    /\ nth_error sample_rs 4 = Some 1
    /\ fossil_rows "World|R5OECD" sample_scen = [sample_oecd]
    /\ at_year (values sample_oecd) 2100 == 5
    /\ fossil_rows "World|R5OECD" out = [oecd]
    /\ at_year (values oecd) 2100 == 1
    /\ ~ at_year (values oecd) 2100 == 5 * (1 - 1)
    /\ fossil_rows "World|R5ASIA" out = [asia]
    /\ at_year (values asia) 2100 == 5 * (1 - 1).
Proof.
  eexists. eexists. eexists.
  split; [vm_compute; reflexivity|].
  split; [reflexivity|]. split; [reflexivity|].
  split; [reflexivity|]. split; [vm_compute; reflexivity|].
  split; [vm_compute; reflexivity|].
  split; [vm_compute; reflexivity|].
  split; [vm_compute; discriminate|].
  split; [vm_compute; reflexivity|].
  vm_compute. reflexivity.
Qed.

(** * Further properties of the schedule *)

Lemma phase_row_Ok_iff (r : Q) (y : Z) (row : list Q) :
  phase_row r y = Ok row <-> (2024 <= y <= 2100)%Z /\ row = schedule r y.
Proof.
  split.
  - intros H.
    destruct (Z_lt_le_dec y 2024) as [Hlo|Hlo];
      [rewrite phase_row_too_early in H by exact Hlo; discriminate|].
    destruct (Z_lt_le_dec 2100 y) as [Hhi|Hhi];
      [rewrite phase_row_too_late in H by exact Hhi; discriminate|].
    rewrite phase_row_ok in H by lia. injection H as <-.
    split; [lia|reflexivity].
  - intros [Hy ->]. apply phase_row_ok, Hy.
Qed.

(** X1: the schedule matrix is built exactly when there are at least as many
    target years as reduction fractions and every target year that is used
    lies from 2024 to 2100; the reduction fractions play no part in it. *)
Theorem schedule_matrix_built_iff (rs : list Q) (ys : list Z) :
  (exists M, R_phase rs ys = Ok M)
  <-> (List.length rs <= List.length ys)%nat
      /\ Forall (fun y => 2024 <= y <= 2100)%Z (firstn (List.length rs) ys).
Proof.
  split.
  - intros [M HM]. apply R_phase_Ok in HM. destruct HM as [_ HM].
    assert (Hlen : (List.length rs <= List.length ys)%nat).
    { destruct (Nat.le_gt_cases (List.length rs) (List.length ys)) as [H|H];
        [exact H|exfalso].
      destruct (nth_error rs (List.length ys)) as [r|] eqn:Hr;
        [|apply nth_error_None in Hr; lia].
      destruct (HM _ r Hr) as [y [row [Hy _]]].
      assert (List.length ys < List.length ys)%nat
        by (apply nth_error_Some; congruence).
      lia. }
    split; [exact Hlen|].
    apply Forall_forall. intros y Hy.
    apply In_nth_error in Hy. destruct Hy as [i Hy].
    rewrite nth_error_firstn in Hy.
    destruct (Nat.ltb_spec i (List.length rs)) as [Hi|Hi]; [|discriminate].
    destruct (nth_error rs i) as [r|] eqn:Hr;
      [|apply nth_error_None in Hr; lia].
    destruct (HM i r Hr) as [y' [row [Hy' [_ Hrow]]]].
    assert (y' = y) by congruence. subst y'.
    apply phase_row_Ok_iff in Hrow. apply Hrow.
  - intros [Hlen Hys]. exists (map2 schedule rs ys).
    apply R_phase_Ok. split; [rewrite length_map2; lia|].
    intros i r Hr.
    assert (Hi : (i < List.length rs)%nat)
      by (apply nth_error_Some; congruence).
    destruct (nth_error ys i) as [y|] eqn:Hy;
      [|apply nth_error_None in Hy; lia].
    exists y, (schedule r y). split; [reflexivity|].
    split; [apply nth_error_map2; assumption|].
    apply phase_row_ok.
    rewrite Forall_forall in Hys. apply Hys.
    apply (nth_error_In _ i). rewrite nth_error_firstn.
    destruct (Nat.ltb_spec i (List.length rs)); [exact Hy|lia].
Qed.

(** X2: whenever the schedule matrix is built, it has one row per reduction
    fraction and every row has one entry per grid year, 101 of them. *)
Theorem schedule_matrix_shape (rs : list Q) (ys : list Z)
  (M : list (list Q)) :
  R_phase rs ys = Ok M ->
  List.length M = List.length rs
  /\ Forall (fun row => List.length row = List.length years_numeric) M.
Proof.
  intros HM. apply R_phase_Ok in HM. destruct HM as [Hlen HM].
  split; [exact Hlen|].
  apply Forall_forall. intros row Hrow.
  apply In_nth_error in Hrow. destruct Hrow as [i Hrow].
  assert (Hi : (i < List.length rs)%nat)
    by (rewrite <- Hlen; apply nth_error_Some; congruence).
  destruct (nth_error rs i) as [r|] eqn:Hr;
    [|apply nth_error_None in Hr; lia].
  destruct (HM i r Hr) as [y [row' [_ [Hrow' Hp]]]].
  assert (row' = row) by congruence. subst row'.
  apply phase_row_Ok_iff in Hp. destruct Hp as [Hy ->].
  apply schedule_length, Hy.
Qed.

Lemma schedule_matrix_shape_witness :
  List.length [schedule (1#2) 2075; schedule 1 2024] = List.length [1#2; 1]
  /\ Forall (fun row => List.length row = List.length years_numeric)
            [schedule (1#2) 2075; schedule 1 2024].
Proof.
  apply (schedule_matrix_shape [1#2; 1] [2075; 2024]%Z).
  vm_compute. reflexivity.
Defined.

Lemma mapM_ext_in {A B : Type} (f g : A -> result B) (l : list A) :
  (forall x, In x l -> f x = g x) -> mapM f l = mapM g l.
Proof.
  induction l as [|x l IH]; intros H; [reflexivity|].
  simpl. rewrite (H x (or_introl eq_refl)), IH; [reflexivity|].
  intros y Hy. apply H. right. exact Hy.
Qed.

Lemma mapM_app_Raise {A B : Type} (f : A -> result B) (l1 l2 : list A)
  (x : A) (e : exn) :
  (forall a, In a l1 -> exists b, f a = Ok b) ->
  f x = Raise e ->
  mapM f (l1 ++ x :: l2) = Raise e.
Proof.
  intros Hl1 Hx. induction l1 as [|a l1 IH]; simpl.
  - rewrite Hx. reflexivity.
  - destruct (Hl1 a (or_introl eq_refl)) as [b Hb]. rewrite Hb. simpl.
    rewrite IH; [reflexivity|].
    intros a' Ha'. apply Hl1. right. exact Ha'.
Qed.

(** X3: with fewer target years than reduction fractions (the years given
    being 2024 or later) the function stops with the IndexError of
    [ramp_duration[i]], whatever the scenario. *)
Theorem too_few_target_years (scen : ScmRun) (rs : list Q) (ys : list Z) :
  (List.length ys < List.length rs)%nat ->
  Forall (fun y => 2024 <= y)%Z ys ->
  modify_scenario scen rs ys = Raise IndexError.
Proof.
  intros Hlen Hys. unfold modify_scenario, R_phase, scale_factor.
  replace (seq 0 (List.length rs))
    with (seq 0 (List.length ys)
          ++ List.length ys
             :: seq (S (List.length ys))
                    (List.length rs - S (List.length ys)))%list.
  2:{ replace (List.length rs)
        with (List.length ys + S (List.length rs - S (List.length ys)))%nat
        at 2 by lia.
      rewrite seq_app. reflexivity. }
  rewrite (mapM_app_Raise _ _ _ _ IndexError); [reflexivity| |].
  - intros i Hi. apply in_seq in Hi. unfold scale_factor_i, item.
    destruct (nth_error rs i) as [r|] eqn:Hr;
      [|apply nth_error_None in Hr; lia].
    destruct (nth_error ys i) as [y|] eqn:Hy;
      [|apply nth_error_None in Hy; lia].
    rewrite ramp_duration_nth, Hy. cbn [of_option option_map bind].
    rewrite linspace_ramp; [eexists; reflexivity|].
    rewrite Forall_forall in Hys.
    pose proof (Hys y (nth_error_In _ _ Hy)). unfold start_index. lia.
  - unfold scale_factor_i, item.
    destruct (nth_error rs (List.length ys)) as [r|] eqn:Hr;
      [|apply nth_error_None in Hr; lia].
    rewrite ramp_duration_nth.
    assert (Hnone : nth_error ys (List.length ys) = None)
      by (apply nth_error_None; lia).
    rewrite Hnone. reflexivity.
Qed.

Lemma too_few_target_years_witness :
  modify_scenario sample_scen [0; 0; 0; 0; 1] [2050; 2050; 2050]%Z
  = Raise IndexError.
Proof.
  apply (too_few_target_years sample_scen [0; 0; 0; 0; 1]
           [2050; 2050; 2050]%Z).
  - simpl. lia.
  - repeat constructor; lia.
Defined.

(** X4: target years beyond the number of reduction fractions are never
    read: with any surplus years, valid or not, the function behaves as
    without them. *)
Theorem surplus_target_years_ignored (scen : ScmRun) (rs : list Q)
  (ys extra : list Z) :
  (List.length rs <= List.length ys)%nat ->
  modify_scenario scen rs (ys ++ extra) = modify_scenario scen rs ys.
Proof.
  intros Hlen.
  assert (Hnth : forall i, (i < List.length rs)%nat ->
            nth_error (ys ++ extra) i = nth_error ys i).
  { intros i Hi. apply nth_error_app1. lia. }
  assert (Hsf : scale_factor rs (ys ++ extra) = scale_factor rs ys).
  { unfold scale_factor. apply mapM_ext_in. intros i Hi.
    apply in_seq in Hi. unfold scale_factor_i, item.
    rewrite !ramp_duration_nth, Hnth by lia. reflexivity. }
  assert (HR : R_phase rs (ys ++ extra) = R_phase rs ys).
  { unfold R_phase. rewrite Hsf.
    destruct (scale_factor rs ys) as [sfs|e]; [|reflexivity].
    cbn [bind]. apply mapM_ext_in. intros i Hi.
    apply in_seq in Hi. unfold R_phase_i, item.
    rewrite !target_index_nth, Hnth by lia. reflexivity. }
  unfold modify_scenario. rewrite HR. reflexivity.
Qed.

Lemma surplus_target_years_ignored_witness :
  modify_scenario sample_scen sample_rs (sample_ys ++ [1999; 2500]%Z)
  = modify_scenario sample_scen sample_rs sample_ys.
Proof.
  apply (surplus_target_years_ignored sample_scen sample_rs sample_ys
           [1999; 2500]%Z).
  simpl. lia.
Defined.




Lemma Qscale_le (x a b : Q) : 0 <= x -> a <= b -> x * a + 0 <= x * b + 0.
Proof. intros Hx Hab. nra. Qed.

Lemma ramp_monotone_in_r (r r' : Q) (num : Z) (j : nat) :
  r <= r' -> ramp r num j <= ramp r' num j.
Proof.
  intros Hr. unfold ramp.
  destruct ((1 <? num) && (Z.of_nat j =? num - 1))%Z; [exact Hr|].
  pose proof (inject_Z_nonneg (Z.of_nat j) ltac:(lia)) as Hj.
  destruct (0 <? num - 1)%Z eqn:E.
  - assert (Hd : 0 < inject_Z (num - 1)) by (apply inject_Z_pos; lia).
    assert (Hc : (r - 0) / inject_Z (num - 1)
                 <= (r' - 0) / inject_Z (num - 1)).
    { apply Qle_shift_div_l; [exact Hd|].
      setoid_replace ((r - 0) / inject_Z (num - 1) * inject_Z (num - 1))
        with (r - 0) by (field; apply inject_Z_nonzero; lia).
      lra. }
    apply Qscale_le; assumption.
  - apply Qscale_le; [exact Hj|lra].
Qed.

Lemma schedule_monotone_in_r (r r' : Q) (y : Z) (k : nat) :
  r <= r' -> (2024 <= y <= 2100)%Z -> (k < 101)%nat ->
  nth k (schedule r y) 0 <= nth k (schedule r' y) 0.
Proof.
  intros Hr Hy Hk.
  destruct (Nat.lt_ge_cases k 25) as [Hlo|Hlo].
  - rewrite !schedule_before by exact Hlo. lra.
  - destruct (Z_le_gt_dec (Z.of_nat k) (y - 2000)) as [Hmid|Hhi].
    + rewrite !schedule_ramp by assumption.
      apply ramp_monotone_in_r, Hr.
    + rewrite !schedule_after by lia. exact Hr.
Qed.

Lemma adjusted_row_year (scen : ScmRun) (rs : list Q) (ys : list Z)
  (adj : ScmRun) (i : nat) (r : Q) :
  adjusted_regions scen rs ys = Ok adj ->
  nth_error rs i = Some r ->
  exists y, nth_error ys i = Some y /\ (2024 <= y <= 2100)%Z.
Proof.
  intros Hadj Hr. unfold adjusted_regions in Hadj.
  apply bind_Ok in Hadj. destruct Hadj as [M [HM _]].
  apply R_phase_Ok in HM. destruct HM as [_ HM].
  destruct (HM i r Hr) as [y [row [Hy [_ Hrow]]]].
  exists y. split; [exact Hy|]. apply phase_row_Ok_iff in Hrow. apply Hrow.
Qed.

(** X7: a larger reduction fraction never gives larger emissions: when a
    region's fraction goes from [r] to [r' >= r], target years unchanged,
    every adjusted value of that region coming from a non-negative original
    value is at most what it was with [r]. *)
Theorem larger_fraction_smaller_emissions (scen : ScmRun) (rs rs' : list Q)
  (ys : list Z) (reg0 adj adj' : ScmRun) (i : nat) (ts : TimeSeries)
  (r r' : Q) :
  loc_reg_C02 scen = Ok reg0 ->
  adjusted_regions scen rs ys = Ok adj ->
  adjusted_regions scen rs' ys = Ok adj' ->
  nth_error reg0 i = Some ts ->
  nth_error rs i = Some r -> nth_error rs' i = Some r' -> r <= r' ->
  exists ts1 ts2,
    nth_error adj i = Some ts1
    /\ nth_error adj' i = Some ts2
    /\ forall k, (k < ncols)%nat -> 0 <= nth k (values ts) 0 ->
         nth k (values ts2) 0 <= nth k (values ts1) 0.
Proof.
  intros Hreg Hadj Hadj' Hts Hr Hr' Hrr.
  destruct (adjusted_row_year _ _ _ _ _ _ Hadj Hr) as [y [Hy Hyr]].
  destruct (adjusted_row _ _ _ _ _ _ _ _ _ Hreg Hadj Hts Hr Hy)
    as [M [row [_ [_ [Hrow [Hnth [Hw1 Hw2]]]]]]].
  destruct (adjusted_row _ _ _ _ _ _ _ _ _ Hreg Hadj' Hts Hr' Hy)
    as [M' [row' [_ [_ [Hrow' [Hnth' [_ Hw2']]]]]]].
  rewrite phase_row_ok in Hrow, Hrow' by exact Hyr.
  injection Hrow as <-. injection Hrow' as <-.
  eexists. eexists. split; [exact Hnth|]. split; [exact Hnth'|].
  intros k Hk Hx.
  rewrite !scale_nth by (rewrite ?Hw1, ?Hw2, ?Hw2'; exact Hk).
  pose proof (schedule_monotone_in_r r r' y k Hrr Hyr Hk) as Hs.
  nra.
Qed.

Lemma larger_fraction_smaller_emissions_witness :
  exists ts1 ts2,
    nth_error
      (match adjusted_regions sample_scen [0; 0; 0; 0; 1#2] sample_ys with
       | Ok adj => adj
       | Raise _ => []
       end) 4 = Some ts1
    /\ nth_error
         (match adjusted_regions sample_scen sample_rs sample_ys with
          | Ok adj => adj
          | Raise _ => []
          end) 4 = Some ts2
    /\ forall k, (k < ncols)%nat -> 0 <= nth k (values sample_oecd) 0 ->
         nth k (values ts2) 0 <= nth k (values ts1) 0.
Proof.
  eapply (larger_fraction_smaller_emissions sample_scen [0; 0; 0; 0; 1#2]
            sample_rs sample_ys _ _ _ 4 sample_oecd (1#2) 1).
  - vm_compute. reflexivity.
  - vm_compute. reflexivity.
  - vm_compute. reflexivity.
  - reflexivity.
  - reflexivity.
  - reflexivity.
  - lra.
Defined.




(** * Further properties of the adjustment and the reassembly *)

Lemma map2_repeat {A B C : Type} (f : A -> B -> C) (l : list A) (b : B) :
  map2 f l (repeat b (List.length l)) = map (fun a => f a b) l.
Proof.
  induction l as [|a l IH]; [reflexivity|].
  simpl. rewrite IH. reflexivity.
Qed.

Lemma frame_imul_broadcast (df : ScmRun) (row : list Q) :
  List.length df = 5%nat ->
  frame_imul df [row] = frame_imul df (repeat row 5).
Proof.
  intros Hdf. unfold frame_imul.
  assert (E : map2 scale df (repeat row 5)
              = map (fun ts => scale ts row) df)
    by (rewrite <- Hdf; apply map2_repeat).
  rewrite E, repeat_length, Hdf.
  cbn [repeat forallb List.length Nat.eqb].
  destruct (forallb (fun ts => has_width ncols (values ts)) df);
    [|reflexivity].
  destruct (has_width ncols row); reflexivity.
Qed.

Lemma R_phase_not_Ok (rs : list Q) (ys : list Z) :
  List.length ys = List.length rs ->
  (forall M, R_phase rs ys <> Ok M) ->
  R_phase rs ys = Raise ValueError.
Proof.
  intros Hlen H. destruct (R_phase rs ys) as [M|e] eqn:E.
  - exfalso. exact (H M eq_refl).
  - rewrite (R_phase_Raise rs ys e Hlen E). reflexivity.
Qed.

Lemma R_phase_repeat (r : Q) (y : Z) (n : nat) (M : list (list Q)) :
  R_phase (repeat r (S n)) (repeat y (S n)) = Ok M
  <-> exists row, phase_row r y = Ok row /\ M = repeat row (S n).
Proof.
  rewrite R_phase_Ok. rewrite repeat_length. split.
  - intros [Hlen H].
    destruct (H 0%nat r eq_refl) as [y0 [row [Hy0 [_ Hrow]]]].
    simpl in Hy0. injection Hy0 as <-.
    exists row. split; [exact Hrow|].
    apply nth_ext with (d := row) (d' := row).
    + rewrite repeat_length. exact Hlen.
    + intros i Hi. rewrite Hlen in Hi.
      assert (Hr : nth_error (repeat r (S n)) i = Some r).
      { rewrite nth_error_repeat by exact Hi. reflexivity. }
      destruct (H i r Hr) as [y1 [row1 [Hy1 [Hrow1 Hp1]]]].
      rewrite nth_error_repeat in Hy1 by exact Hi. injection Hy1 as <-.
      rewrite (nth_error_nth _ _ _ Hrow1), nth_repeat. congruence.
  - intros [row [Hrow ->]]. split; [apply repeat_length|].
    intros i r' Hr'.
    assert (Hi : (i < S n)%nat).
    { rewrite <- (repeat_length r (S n)). apply nth_error_Some. congruence. }
    rewrite nth_error_repeat in Hr' by exact Hi. injection Hr' as <-.
    exists y, row. rewrite !nth_error_repeat by exact Hi. auto.
Qed.

(** X9: a single reduction fraction with a single target year is not an
    error: its schedule is applied to all five regions, exactly as if the
    pair had been given five times. *)
Theorem single_fraction_applies_to_all_regions (scen : ScmRun) (r : Q)
  (y : Z) :
  expected_schema scen ->
  modify_scenario scen [r] [y]
  = modify_scenario scen (repeat r 5) (repeat y 5).
Proof.
  intros Hs. unfold modify_scenario.
  destruct (phase_row r y) as [row|e] eqn:Hrow.
  - assert (H1 : R_phase [r] [y] = Ok [row]) by (apply R_phase_single, Hrow).
    assert (H5 : R_phase (repeat r 5) (repeat y 5) = Ok (repeat row 5)).
    { apply (R_phase_repeat r y 4). exists row. auto. }
    rewrite H1, H5. cbn [bind].
    rewrite (schema_selection scen Hs). cbn [bind].
    assert (Himul : frame_imul
                      (filter (fun ts => (variable (meta ts) =? var)%string
                                         && isin (region (meta ts))
                                                 regions_to_modify) scen)
                      (one_minus [row])
                    = frame_imul
                        (filter (fun ts => (variable (meta ts) =? var)%string
                                           && isin (region (meta ts))
                                                   regions_to_modify) scen)
                        (one_minus (repeat row 5))).
    { apply (frame_imul_broadcast _ (map (fun x => 1 - x) row)).
      apply schema_selection_length, Hs. }
    rewrite Himul. reflexivity.
  - assert (H1 : R_phase [r] [y] = Raise ValueError).
    { apply R_phase_not_Ok; [reflexivity|]. intros M HM.
      pose proof HM as HM'. apply R_phase_Ok in HM'.
      destruct HM' as [Hlen _].
      destruct M as [|row [|row' M]]; try discriminate.
      apply R_phase_single in HM. congruence. }
    assert (H5 : R_phase (repeat r 5) (repeat y 5) = Raise ValueError).
    { apply R_phase_not_Ok; [rewrite !repeat_length; reflexivity|].
      intros M HM. apply (R_phase_repeat r y 4) in HM.
      destruct HM as [row [Hrow' _]]. congruence. }
    rewrite H1, H5. reflexivity.
Qed.

Lemma single_fraction_applies_to_all_regions_witness :
  modify_scenario sample_scen [1#2] [2075%Z]
  = modify_scenario sample_scen (repeat (1#2) 5) (repeat 2075%Z 5).
Proof.
  apply (single_fraction_applies_to_all_regions sample_scen (1#2) 2075).
  exact sample_schema.
Defined.

(** X10: on a scenario with the six expected rows, a number of reduction
    fractions other than 1 and 5 (with as many target years) always ends in a
    ValueError: no run is returned. *)
Theorem wrong_number_of_fractions (scen : ScmRun) (rs : list Q)
  (ys : list Z) :
  expected_schema scen ->
  List.length ys = List.length rs ->
  List.length rs <> 1%nat -> List.length rs <> 5%nat ->
  modify_scenario scen rs ys = Raise ValueError.
Proof.
  intros Hs Hlen H1 H5. unfold modify_scenario.
  destruct (R_phase rs ys) as [M|e] eqn:HR.
  - cbn [bind]. rewrite (schema_selection scen Hs). cbn [bind].
    apply R_phase_Ok in HR. destruct HR as [HM _].
    unfold frame_imul.
    destruct (_ && _); [|reflexivity].
    unfold one_minus at 1. rewrite length_map, HM.
    rewrite (schema_selection_length scen Hs).
    destruct (List.length rs =? 5)%nat eqn:E;
      [apply Nat.eqb_eq in E; contradiction|].
    destruct M as [|row [|row' M]]; simpl in *;
      [reflexivity|congruence|reflexivity].
  - cbn [bind]. rewrite (R_phase_Raise rs ys e Hlen HR). reflexivity.
Qed.

Lemma wrong_number_of_fractions_witness :
  modify_scenario sample_scen [0; 1#2; 1] [2050; 2050; 2050]%Z
  = Raise ValueError.
Proof.
  apply (wrong_number_of_fractions sample_scen [0; 1#2; 1]
           [2050; 2050; 2050]%Z).
  - exact sample_schema.
  - reflexivity.
  - discriminate.
  - discriminate.
Defined.

Lemma loc_regions_found (m : list Meta) (regs : list string)
  (r5 : list Meta) (g : string) :
  loc_regions m regs = Ok r5 -> In g regs ->
  exists x, In x m /\ region x = g.
Proof.
  unfold loc_regions. intros H Hg.
  apply bind_Ok in H. destruct H as [chunks [Hchunks _]].
  revert chunks Hchunks.
  induction regs as [|g' regs IH]; intros chunks H; [contradiction|].
  simpl in H.
  apply bind_Ok in H. destruct H as [c [Hc H]].
  apply bind_Ok in H. destruct H as [cs [Hcs _]].
  destruct Hg as [<-|Hg]; [|exact (IH Hg cs Hcs)].
  destruct (filter (fun x => (region x =? g')%string) m) as [|x l] eqn:E;
    [discriminate|].
  assert (Hx : In x (filter (fun x => (region x =? g')%string) m))
    by (rewrite E; left; reflexivity).
  apply filter_In in Hx. destruct Hx as [Hx Hr].
  exists x. split; [exact Hx|apply String.eqb_eq, Hr].
Qed.

(** X11: the function never returns a run built from an incomplete set of
    regions: whenever it returns, the scenario held a fossil CO2 row for
    each of the five regions (otherwise [.loc[regions_to_modify]] is a
    KeyError, if nothing failed before). *)
Theorem returns_only_with_all_five_regions (scen : ScmRun) (rs : list Q)
  (ys : list Z) (out : ScmRun) :
  modify_scenario scen rs ys = Ok out ->
  forall g, In g regions_to_modify ->
    exists ts, In ts scen /\ variable (meta ts) = var
               /\ region (meta ts) = g.
Proof.
  intros H g Hg. apply modify_scenario_Ok in H.
  destruct H as [adj [r5 [_ [Hr5 _]]]].
  destruct (loc_regions_found _ _ _ g Hr5 Hg) as [m [Hm Hreg]].
  unfold r5_meta in Hm. apply in_map_iff in Hm.
  destruct Hm as [ts [<- Hts]].
  unfold filter_region in Hts. apply filter_In in Hts.
  destruct Hts as [Hts _]. apply template_In in Hts.
  exists ts. split; [apply Hts|]. split; [apply Hts|exact Hreg].
Qed.

Lemma returns_only_with_all_five_regions_witness :
  exists ts, In ts sample_scen /\ variable (meta ts) = var
             /\ region (meta ts) = "World|R5ASIA".
Proof.
  apply (returns_only_with_all_five_regions sample_scen sample_rs sample_ys
           sample_out).
  - vm_compute. reflexivity.
  - simpl. tauto.
Defined.

Lemma filter_partition_Permutation {A : Type} (p : A -> bool) (l : list A) :
  Permutation (filter (fun x => Bool.eqb (p x) false) l
               ++ filter (fun x => Bool.eqb (p x) true) l) l.
Proof.
  induction l as [|x l IH]; [constructor|].
  simpl. destruct (p x); simpl.
  - apply Permutation_sym. eapply Permutation_trans.
    + apply perm_skip, Permutation_sym, IH.
    + apply Permutation_middle.
  - apply perm_skip, IH.
Qed.

Lemma filter_none {A : Type} (p : A -> bool) (l : list A) :
  (forall x, In x l -> p x = false) -> filter p l = [].
Proof.
  induction l as [|x l IH]; intros H; [reflexivity|].
  simpl. rewrite (H x (or_introl eq_refl)).
  apply IH. intros y Hy. apply H. right. exact Hy.
Qed.

Lemma flat_map_agree {A B : Type} (f g : A -> list B) (l : list A) :
  (forall x, In x l -> f x = g x) -> flat_map f l = flat_map g l.
Proof.
  induction l as [|x l IH]; intros H; [reflexivity|].
  simpl. rewrite (H x (or_introl eq_refl)), IH; [reflexivity|].
  intros y Hy. apply H. right. exact Hy.
Qed.

Section Labels.

Context {A : Type} (key : A -> string).

Lemma filter_isin_cons_Permutation (l : list A) (g : string)
  (regs : list string) :
  ~ In g regs ->
  Permutation (filter (fun x => String.eqb (key x) g) l
               ++ filter (fun x => isin (key x) regs) l)
              (filter (fun x => isin (key x) (g :: regs)) l).
Proof.
  intros Hg. induction l as [|x l IH]; [constructor|].
  cbn [filter]. rewrite isin_cons.
  destruct (key x =? g)%string eqn:E; cbn [orb].
  - apply String.eqb_eq in E.
    destruct (isin (key x) regs) eqn:E'.
    + apply isin_In in E'. congruence.
    + simpl. apply perm_skip, IH.
  - destruct (isin (key x) regs).
    + eapply Permutation_trans.
      * apply Permutation_sym, Permutation_middle.
      * apply perm_skip, IH.
    + exact IH.
Qed.

Lemma flat_map_labels_Permutation (l : list A) (regs : list string) :
  NoDup regs ->
  Permutation (flat_map (fun g => filter (fun x => String.eqb (key x) g) l)
                        regs)
              (filter (fun x => isin (key x) regs) l).
Proof.
  induction 1 as [|g regs Hg Hnd IH].
  - cbn [flat_map]. rewrite filter_none; [constructor|].
    intros x Hx. reflexivity.
  - cbn [flat_map]. eapply Permutation_trans.
    + apply Permutation_app_head, IH.
    + apply filter_isin_cons_Permutation, Hg.
Qed.

(** Picking the rows label by label gives the rows back, when their labels,
    in order, are the labels asked for and no label is repeated. *)
Lemma flat_map_labels_in_order (l : list A) :
  NoDup (map key l) ->
  flat_map (fun g => filter (fun x => String.eqb (key x) g) l) (map key l)
  = l.
Proof.
  induction l as [|x l IH]; intros Hnd; [reflexivity|].
  cbn [map] in *. inversion Hnd as [|k ks Hx Hnd']. subst.
  cbn [flat_map filter]. rewrite String.eqb_refl.
  rewrite filter_none.
  2:{ intros y Hy. apply String.eqb_neq. intros Heq.
      apply Hx. rewrite <- Heq. apply in_map, Hy. }
  cbn [app]. f_equal.
  rewrite <- (IH Hnd') at 2.
  apply flat_map_agree. intros g Hg.
  destruct (key x =? g)%string eqn:E; [|reflexivity].
  apply String.eqb_eq in E. subst g. contradiction.
Qed.

End Labels.

Lemma map2_mkTS_metas (metas : list Meta) :
  forall vals : list (list Q),
    List.length vals = List.length metas ->
    map meta (map2 mkTS metas vals) = metas.
Proof.
  induction metas as [|m metas IH]; intros [|v vals] H; simpl in *;
    try discriminate; try reflexivity.
  f_equal. apply IH. lia.
Qed.

Lemma filter_map_swap {A B : Type} (p : B -> bool) (f : A -> B)
  (l : list A) :
  filter p (map f l) = map f (filter (fun x => p (f x)) l).
Proof.
  induction l as [|x l IH]; [reflexivity|].
  simpl. destruct (p (f x)); simpl; rewrite IH; reflexivity.
Qed.

Lemma combined_meta_Permutation (scen : ScmRun) (r5 : list Meta) :
  loc_regions (r5_meta scen) regions_to_modify = Ok r5 ->
  Permutation (world_meta scen ++ r5)
              (map meta (replacement_meta_template scen)).
Proof.
  intros Hr5. apply loc_regions_Ok in Hr5. subst r5.
  set (T := replacement_meta_template scen).
  assert (HT : Permutation
                 (filter (fun ts => String.eqb (region (meta ts)) "World") T
                  ++ filter (fun ts => isin (region (meta ts))
                                            regions_to_modify) T)
                 T).
  { eapply Permutation_trans.
    - apply (filter_isin_cons_Permutation (fun ts => region (meta ts)) T
               "World" regions_to_modify World_not_modified).
    - fold regions_to_replace. rewrite filter_all; [apply Permutation_refl|].
      intros ts Hts. apply template_In in Hts. apply isin_In, Hts. }
  eapply Permutation_trans; [|apply Permutation_map, HT].
  rewrite map_app. apply Permutation_app.
  - unfold world_meta, filter_region. fold T.
    rewrite (filter_ext _ (fun ts => String.eqb (region (meta ts)) "World"));
      [apply Permutation_refl|].
    intros ts. cbn [isin existsb]. apply orb_false_r.
  - eapply Permutation_trans.
    + apply (flat_map_labels_Permutation region), regions_to_modify_NoDup.
    + unfold r5_meta, filter_region. fold T.
      rewrite filter_map_swap, filter_all; [apply Permutation_refl|].
      intros ts Hts. apply filter_In in Hts. apply Hts.
Qed.

(** X12: reassembly keeps the metadata of the scenario: the rows of the
    result carry the same (model, scenario, region, variable, unit,
    climate_model, todo) tuples as the rows of the scenario, each as many
    times, so that distinct keys stay distinct. *)
Theorem reassembly_keeps_metadata (scen : ScmRun) (rs : list Q)
  (ys : list Z) (out : ScmRun) :
  modify_scenario scen rs ys = Ok out ->
  Permutation (map meta out) (map meta scen)
  /\ (NoDup (map meta scen) -> NoDup (map meta out)).
Proof.
  intros H. apply modify_scenario_Ok in H.
  destruct H as [adj [r5 [_ [Hr5 [Hlen ->]]]]].
  assert (Hperm : Permutation
                    (map meta (base_run scen
                               ++ map2 mkTS (world_meta scen ++ r5)
                                       (frame_sum adj :: map values adj)))
                    (map meta scen)).
  { rewrite map_app, map2_mkTS_metas
      by (cbn [List.length]; rewrite length_map; exact Hlen).
    eapply Permutation_trans.
    - apply Permutation_app_head, combined_meta_Permutation, Hr5.
    - rewrite <- map_app. apply Permutation_map.
      apply (filter_partition_Permutation
               (fun ts => (variable (meta ts) =? var)%string
                          && isin (region (meta ts)) regions_to_replace)). }
  split; [exact Hperm|].
  intros Hnd. eapply Permutation_NoDup; [|exact Hnd].
  apply Permutation_sym, Hperm.
Qed.

Lemma reassembly_keeps_metadata_witness :
  Permutation (map meta sample_out) (map meta sample_scen)
  /\ (NoDup (map meta sample_scen) -> NoDup (map meta sample_out)).
Proof.
  apply (reassembly_keeps_metadata sample_scen sample_rs sample_ys).
  vm_compute. reflexivity.
Defined.

Lemma map2_mkTS_rebuild (l : ScmRun) :
  map2 mkTS (map meta l) (map values l) = l.
Proof.
  induction l as [|[m v] l IH]; [reflexivity|].
  simpl. rewrite IH. reflexivity.
Qed.

Lemma schema_r5_meta (scen : ScmRun) :
  r5_meta scen
  = map meta (filter (fun ts => (variable (meta ts) =? var)%string
                                && isin (region (meta ts)) regions_to_modify)
                     scen).
Proof.
  unfold r5_meta, filter_region, replacement_meta_template,
    filter_variable_region.
  rewrite <- filter_andb. f_equal. apply filter_ext. intros ts.
  destruct (isin (region (meta ts)) regions_to_modify) eqn:E.
  - unfold regions_to_replace. rewrite isin_cons, E, orb_true_r.
    destruct (variable (meta ts) =? var)%string; reflexivity.
  - rewrite !andb_false_r. reflexivity.
Qed.

Lemma sample_ordered_schema : expected_schema sample_scen_ordered.
Proof.
  split.
  - intros g Hg. unfold regions_to_replace, regions_to_modify in Hg.
    simpl in Hg.
    repeat (destruct Hg as [Hg|Hg]; [rewrite <- Hg; reflexivity|]).
    contradiction.
  - intros ts Hts Hv. unfold sample_scen_ordered in Hts. simpl in Hts.
    repeat (destruct Hts as [Hts|Hts];
            [rewrite <- Hts in *; split; [reflexivity|simpl; tauto]|]).
    contradiction.
Qed.

(** X13: when the five regional rows of the scenario come in the order of
    [regions_to_modify], every adjusted series stays under its own metadata:
    the replacement block is the recomputed World row followed by the adjusted
    frame itself. *)
Theorem labels_follow_values_when_rows_are_ordered (scen : ScmRun)
  (rs : list Q) (ys : list Z) (reg0 out : ScmRun) :
  expected_schema scen ->
  loc_reg_C02 scen = Ok reg0 ->
  map (fun ts => region (meta ts)) reg0 = regions_to_modify ->
  modify_scenario scen rs ys = Ok out ->
  exists adj w0,
    adjusted_regions scen rs ys = Ok adj
    /\ In w0 scen
    /\ region (meta w0) = "World" /\ variable (meta w0) = var
    /\ map meta adj = map meta reg0
    /\ skipn (List.length (base_run scen)) out
       = mkTS (meta w0) (frame_sum adj) :: adj.
Proof.
  intros Hs Hreg Horder H. apply modify_scenario_Ok in H.
  destruct H as [adj [r5 [Hadj [Hr5 [Hlen ->]]]]].
  destruct (schema_world_meta scen Hs) as [w0 [Hw0 Hwm]].
  exists adj, w0. split; [exact Hadj|]. split; [exact Hw0|].
  assert (Hw0meta : region (meta w0) = "World" /\ variable (meta w0) = var).
  { assert (Hin : In (meta w0) (world_meta scen))
      by (rewrite Hwm; left; reflexivity).
    unfold world_meta in Hin. apply in_map_iff in Hin.
    destruct Hin as [w [Hmw Hw]]. rewrite <- Hmw.
    unfold filter_region in Hw. apply filter_In in Hw.
    destruct Hw as [Hw Hg]. apply template_In in Hw.
    split; [|apply Hw].
    cbn [isin existsb] in Hg. rewrite orb_false_r in Hg.
    apply String.eqb_eq, Hg. }
  split; [apply Hw0meta|]. split; [apply Hw0meta|].
  assert (Hmeta : map meta adj = map meta reg0).
  { unfold adjusted_regions in Hadj.
    apply bind_Ok in Hadj. destruct Hadj as [R [_ Hadj]].
    rewrite Hreg in Hadj. cbn [bind] in Hadj.
    apply (frame_imul_meta _ _ _ Hadj). }
  split; [exact Hmeta|].
  rewrite skipn_app, Nat.sub_diag, skipn_all. cbn [skipn app].
  rewrite Hwm. cbn [app map2]. f_equal.
  rewrite (loc_regions_Ok _ _ _ Hr5), schema_r5_meta.
  assert (Hreg0 : filter (fun ts => (variable (meta ts) =? var)%string
                                   && isin (region (meta ts))
                                           regions_to_modify) scen
                  = reg0)
    by (pose proof (schema_selection scen Hs); congruence).
  rewrite Hreg0.
  assert (Hkeys : map region (map meta reg0) = regions_to_modify)
    by (rewrite map_map; exact Horder).
  rewrite <- Hkeys.
  rewrite (flat_map_labels_in_order region)
    by (rewrite Hkeys; exact regions_to_modify_NoDup).
  rewrite <- Hmeta. apply map2_mkTS_rebuild.
Qed.

Lemma labels_follow_values_when_rows_are_ordered_witness :
  exists adj w0,
    adjusted_regions sample_scen_ordered sample_rs sample_ys = Ok adj
    /\ In w0 sample_scen_ordered
    /\ region (meta w0) = "World" /\ variable (meta w0) = var
    /\ map meta adj
       = map meta (filter (fun ts => isin (region (meta ts))
                                          regions_to_modify)
                          sample_scen_ordered)
    /\ skipn (List.length (base_run sample_scen_ordered))
             (match modify_scenario sample_scen_ordered sample_rs sample_ys
              with
              | Ok out => out
              | Raise _ => []
              end)
       = mkTS (meta w0) (frame_sum adj) :: adj.
Proof.
  eapply (labels_follow_values_when_rows_are_ordered sample_scen_ordered
            sample_rs sample_ys).
  - exact sample_ordered_schema.
  - vm_compute. reflexivity.
  - reflexivity.
  - vm_compute. reflexivity.
Defined.

Lemma frame_imul_rows (df : ScmRun) (a : list (list Q)) (adj : ScmRun) :
  frame_imul df a = Ok adj ->
  Forall2 (fun ts ts' => exists row,
             In row a /\ ts' = scale ts row
             /\ List.length (values ts) = ncols
             /\ List.length row = ncols) df adj.
Proof.
  unfold frame_imul. intros H.
  destruct (forallb (fun ts => has_width ncols (values ts)) df) eqn:Hdf;
    [|discriminate].
  destruct (forallb (has_width ncols) a) eqn:Ha; [|discriminate].
  cbn [andb] in H. rewrite forallb_forall in Hdf, Ha.
  assert (Hw : forall ts, In ts df -> List.length (values ts) = ncols)
    by (intros ts Hts; apply Nat.eqb_eq, (Hdf ts Hts)).
  assert (Hwa : forall row, In row a -> List.length row = ncols)
    by (intros row Hrow; apply Nat.eqb_eq, (Ha row Hrow)).
  clear Hdf Ha.
  destruct (List.length a =? List.length df)%nat eqn:E.
  - injection H as <-. apply Nat.eqb_eq in E.
    revert a E Hwa. induction df as [|ts df IH]; intros [|row a] E Hwa;
      simpl in E; try discriminate; [constructor|].
    cbn [map2]. constructor.
    + exists row. split; [left; reflexivity|]. split; [reflexivity|].
      split; [apply Hw; left; reflexivity|apply Hwa; left; reflexivity].
    + assert (Hw' : forall t, In t df -> List.length (values t) = ncols)
        by (intros t Ht; apply Hw; right; exact Ht).
      assert (Hwa' : forall r, In r a -> List.length r = ncols)
        by (intros r Hr; apply Hwa; right; exact Hr).
      assert (E' : List.length a = List.length df) by lia.
      pose proof (IH Hw' a E' Hwa') as Hrest.
      eapply Forall2_impl; [|exact Hrest].
      intros t t' [r [Hr Hr']]. exists r. split; [right; exact Hr|exact Hr'].
  - destruct a as [|row [|row' a']]; try discriminate.
    injection H as <-. clear E.
    induction df as [|ts df IH]; [constructor|].
    cbn [map]. constructor.
    + exists row. split; [left; reflexivity|]. split; [reflexivity|].
      split; [apply Hw; left; reflexivity|apply Hwa; left; reflexivity].
    + apply IH. intros t Ht. apply Hw. right. exact Ht.
Qed.

Lemma fold_left_Qplus_le (l l' : list Q) :
  Forall2 Qle l l' ->
  forall a a', a <= a' -> fold_left Qplus l a <= fold_left Qplus l' a'.
Proof.
  induction 1 as [|x x' l l' Hx Hl IH]; intros a a' Ha; simpl.
  - exact Ha.
  - apply IH. lra.
Qed.

Lemma Qsum_le (l l' : list Q) : Forall2 Qle l l' -> Qsum l <= Qsum l'.
Proof.
  intros H. unfold Qsum. apply fold_left_Qplus_le; [exact H|lra].
Qed.

Lemma Qsum_nonneg (l : list Q) : Forall (fun x => 0 <= x) l -> 0 <= Qsum l.
Proof.
  intros H. unfold Qsum.
  assert (Hgen : forall a, 0 <= a -> 0 <= fold_left Qplus l a).
  { induction H as [|x l Hx Hl IH]; intros a Ha; simpl; [exact Ha|].
    apply IH. lra. }
  apply Hgen. lra.
Qed.

Lemma schedule_in_unit_interval (r : Q) (y : Z) (k : nat) :
  0 <= r <= 1 -> (2024 <= y <= 2100)%Z -> (k < 101)%nat ->
  0 <= nth k (schedule r y) 0 <= 1.
Proof.
  intros Hr Hy Hk.
  destruct (Z.eq_dec y 2024) as [->|Hne].
  - destruct (Nat.lt_ge_cases k 25) as [Hlo|Hlo].
    + rewrite schedule_before by exact Hlo. lra.
    + rewrite schedule_after by lia. exact Hr.
  - pose proof (schedule_bounds r y k (proj1 Hr) ltac:(lia) Hk). lra.
Qed.

Lemma scaled_rows_bounded (k : nat) (df adj : ScmRun) (a : list (list Q)) :
  (k < ncols)%nat ->
  Forall2 (fun ts ts' => exists row,
             In row a /\ ts' = scale ts row
             /\ List.length (values ts) = ncols
             /\ List.length row = ncols) df adj ->
  (forall row, In row a -> List.length row = ncols ->
               0 <= nth k row 0 <= 1) ->
  (forall ts, In ts df -> 0 <= nth k (values ts) 0) ->
  Forall2 (fun ts ts' => 0 <= nth k (values ts') 0 <= nth k (values ts) 0)
          df adj.
Proof.
  intros Hk H Hrows Hpos.
  induction H as [|ts ts' df adj [row [Hrow [-> [Hw1 Hw2]]]] Hrest IH];
    [constructor|].
  constructor.
  - cbn [values scale].
    rewrite (nth_map2 Qmult 0 0 0) by (rewrite ?Hw1, ?Hw2; exact Hk).
    pose proof (Hrows row Hrow Hw2) as Hf.
    pose proof (Hpos ts (or_introl eq_refl)) as Hx.
    nra.
  - apply IH. intros t Ht. apply Hpos. right. exact Ht.
Qed.

Lemma world_row_values (scen : ScmRun) (rs : list Q) (ys : list Z)
  (out adj : ScmRun) (w : TimeSeries) :
  expected_schema scen ->
  modify_scenario scen rs ys = Ok out ->
  adjusted_regions scen rs ys = Ok adj ->
  In w out -> region (meta w) = "World" -> variable (meta w) = var ->
  values w = frame_sum adj.
Proof.
  intros Hs H Hadj Hw Hg Hv. apply modify_scenario_Ok in H.
  destruct H as [adj' [r5 [Hadj' [Hr5 [Hlen ->]]]]].
  assert (adj' = adj) by congruence. subst adj'.
  destruct (schema_world_meta scen Hs) as [w0 [Hw0 Hwm]].
  rewrite Hwm in Hw. cbn [app map2] in Hw.
  apply in_app_or in Hw. destruct Hw as [Hw|[Hw|Hw]].
  - apply base_run_In in Hw. destruct Hw as [_ [Hw|Hw]].
    + contradiction.
    + exfalso. apply Hw. rewrite Hg. left. reflexivity.
  - rewrite <- Hw. reflexivity.
  - exfalso. apply map2_mkTS_meta in Hw.
    rewrite (loc_regions_Ok _ _ _ Hr5) in Hw.
    apply in_flat_map in Hw. destruct Hw as [g [Hgin Hw]].
    apply filter_In in Hw. destruct Hw as [_ Hw].
    apply String.eqb_eq in Hw. rewrite Hg in Hw. subst g.
    exact (World_not_modified Hgin).
Qed.

(** X14: with every reduction fraction in [0,1] and non-negative regional
    series, the recomputed World total is, at every grid year, non-negative
    and at most the sum of the five regional series before the adjustment. *)
Theorem world_total_bounded (scen : ScmRun) (rs : list Q) (ys : list Z)
  (reg0 out : ScmRun) (w : TimeSeries) :
  expected_schema scen ->
  loc_reg_C02 scen = Ok reg0 ->
  modify_scenario scen rs ys = Ok out ->
  Forall (fun r => 0 <= r <= 1) rs ->
  (forall ts k, In ts reg0 -> (k < ncols)%nat -> 0 <= nth k (values ts) 0) ->
  In w out -> region (meta w) = "World" -> variable (meta w) = var ->
  forall k, (k < ncols)%nat ->
    0 <= nth k (values w) 0
    <= Qsum (map (fun ts => nth k (values ts) 0) reg0).
Proof.
  intros Hs Hreg H Hrs Hpos Hw Hg Hv k Hk.
  pose proof H as H'. apply modify_scenario_Ok in H'.
  destruct H' as [adj [_ [Hadj _]]].
  rewrite (world_row_values scen rs ys out adj w Hs H Hadj Hw Hg Hv).
  unfold frame_sum.
  rewrite (nth_map_seq
             (fun j => Qsum (map (fun ts => nth j (values ts) 0) adj)))
    by exact Hk.
  unfold adjusted_regions in Hadj.
  apply bind_Ok in Hadj. destruct Hadj as [M [HM Hadj]].
  rewrite Hreg in Hadj. cbn [bind] in Hadj.
  apply frame_imul_rows in Hadj.
  assert (Hrows : forall row, In row (one_minus M) ->
            List.length row = ncols -> 0 <= nth k row 0 <= 1).
  { intros row Hrow _. unfold one_minus in Hrow.
    apply in_map_iff in Hrow. destruct Hrow as [s [<- Hs0]].
    apply In_nth_error in Hs0. destruct Hs0 as [i Hi].
    apply R_phase_Ok in HM. destruct HM as [HlenM HM].
    assert (Hi' : (i < List.length rs)%nat)
      by (rewrite <- HlenM; apply nth_error_Some; congruence).
    destruct (nth_error rs i) as [r|] eqn:Hr;
      [|apply nth_error_None in Hr; lia].
    destruct (HM i r Hr) as [y [s' [_ [Hs' Hp]]]].
    assert (s' = s) by congruence. subst s'.
    apply phase_row_Ok_iff in Hp. destruct Hp as [Hy ->].
    assert (Hr01 : 0 <= r <= 1).
    { rewrite Forall_forall in Hrs. apply Hrs.
      eapply nth_error_In. exact Hr. }
    pose proof (schedule_in_unit_interval r y k Hr01 Hy Hk) as Hb.
    rewrite (nth_indep _ 0 (1 - 0))
      by (rewrite length_map, schedule_length by exact Hy; exact Hk).
    rewrite (map_nth (fun x => 1 - x)). lra. }
  assert (Hpair : Forall2 (fun ts ts' =>
                    0 <= nth k (values ts') 0 <= nth k (values ts) 0)
                    reg0 adj).
  { apply (scaled_rows_bounded k reg0 adj (one_minus M) Hk Hadj).
    - intros row Hrow Hlen. exact (Hrows row Hrow Hlen).
    - intros ts Hts. exact (Hpos ts k Hts Hk). }
  split.
  - apply Qsum_nonneg. apply Forall_forall. intros x Hx.
    apply in_map_iff in Hx. destruct Hx as [ts' [<- Hts']].
    clear - Hpair Hts'.
    induction Hpair as [|t t' l l' Ht Hl IH]; [contradiction|].
    destruct Hts' as [<-|Hts']; [apply Ht|apply IH, Hts'].
  - apply Qsum_le. clear - Hpair.
    induction Hpair as [|t t' l l' Ht Hl IH]; [constructor|].
    simpl. constructor; [apply Ht|exact IH].
Qed.

Lemma flat_nth (c : Z) (k : nat) :
  (k < ncols)%nat -> nth k (flat c) 0 = inject_Z c.
Proof.
  intros Hk. unfold flat.
  rewrite (nth_indep _ 0 (inject_Z c)) by (rewrite repeat_length; exact Hk).
  apply nth_repeat.
Qed.

Lemma world_total_bounded_witness :
  0 <= nth 100 (values sample_world_out) 0
  <= Qsum (map (fun ts => nth 100 (values ts) 0) sample_reg0).
Proof.
  apply (world_total_bounded sample_scen sample_rs sample_ys sample_reg0
           sample_out sample_world_out).
  - exact sample_schema.
  - vm_compute. reflexivity.
  - vm_compute. reflexivity.
  - repeat constructor; simpl; lra.
  - intros ts k Hts Hk. unfold sample_reg0 in Hts. simpl in Hts.
    repeat (destruct Hts as [Hts|Hts];
            [rewrite <- Hts; cbn [values]; rewrite flat_nth by exact Hk;
             apply inject_Z_nonneg; lia|]).
    contradiction.
  - vm_compute. do 2 right. left. reflexivity.
  - reflexivity.
  - reflexivity.
  - vm_compute. lia.
Defined.

(** * Properties of the dialog and of the main program *)

(** X15: a dialog loop stops at the first answer that passes its test and
    consumes exactly the answers up to it: every answer before it was
    cancelled or failed the test; and the loop is still asking exactly when
    no answer passes. *)
Theorem dialog_loop_stops_at_first_valid_answer {A : Type}
  (accepted : option A -> bool) (answers : list (option A)) :
  (forall x rest,
      ask_until accepted answers = Some (x, rest)
      <-> exists before,
            answers = (before ++ Some x :: rest)%list
            /\ Forall (asked_again accepted) before
            /\ accepted (Some x) = true)
  /\ (ask_until accepted answers = None
      <-> Forall (asked_again accepted) answers).
Proof.
  induction answers as [|a answers [IH1 IH2]].
  - split.
    + intros x rest. split; [discriminate|].
      intros [[|b before] [H _]]; discriminate.
    + split; [constructor|reflexivity].
  - split.
    + intros x rest. cbn [ask_until]. split.
      * intros H. destruct a as [v|].
        -- destruct (accepted (Some v)) eqn:E.
           ++ injection H as <- <-. exists []. auto.
           ++ apply IH1 in H. destruct H as [before [-> [Hb Hx]]].
              exists (Some v :: before). repeat split; try assumption.
              constructor; [exact E|exact Hb].
        -- apply IH1 in H. destruct H as [before [-> [Hb Hx]]].
           exists (None :: before). repeat split; try assumption.
           constructor; [exact I|exact Hb].
      * intros [before [Heq [Hb Hx]]].
        destruct before as [|b before].
        -- injection Heq as -> ->. rewrite Hx. reflexivity.
        -- injection Heq as -> ->. inversion Hb as [|? ? Hb1 Hb2]. subst.
           assert (Hrest : ask_until accepted (before ++ Some x :: rest)
                           = Some (x, rest))
             by (apply IH1; exists before; auto).
           destruct b as [v|]; [|exact Hrest].
           simpl in Hb1. rewrite Hb1. exact Hrest.
    + cbn [ask_until]. split.
      * intros H. destruct a as [v|].
        -- destruct (accepted (Some v)) eqn:E; [discriminate|].
           constructor; [exact E|apply IH2, H].
        -- constructor; [exact I|apply IH2, H].
      * intros H. inversion H as [|? ? H1 H2]. subst.
        destruct a as [v|]; [|apply IH2, H2].
        simpl in H1. rewrite H1. apply IH2, H2.
Qed.

Lemma dict_set_fresh {V : Type} (d : list (string * V)) (k : string) (v : V) :
  ~ In k (map fst d) -> dict_set d k v = (d ++ [(k, v)])%list.
Proof.
  induction d as [|[k' v'] d IH]; intros Hk; [reflexivity|].
  simpl in *. destruct (k' =? k)%string eqn:E.
  - apply String.eqb_eq in E. exfalso. apply Hk. left. exact E.
  - rewrite IH; [reflexivity|]. intros Hin. apply Hk. right. exact Hin.
Qed.

Lemma fold_dict_set_NoDup {V : Type} (pairs : list (string * V)) :
  forall d : list (string * V),
    NoDup (map fst (d ++ pairs)) ->
    fold_left (fun t p => dict_set t (fst p) (snd p)) pairs d
    = (d ++ pairs)%list.
Proof.
  induction pairs as [|[k v] pairs IH]; intros d Hnd; simpl.
  - rewrite app_nil_r. reflexivity.
  - rewrite dict_set_fresh.
    + rewrite IH; rewrite <- app_assoc; [reflexivity|exact Hnd].
    + rewrite map_app in Hnd. simpl in Hnd.
      apply NoDup_remove_2 in Hnd. intros Hin. apply Hnd.
      apply in_or_app. left. exact Hin.
Qed.

Lemma dict_get_NoDup {V : Type} (d : list (string * V)) (k : string) (v : V) :
  NoDup (map fst d) -> In (k, v) d -> dict_get d k = Ok v.
Proof.
  induction d as [|[k' v'] d IH]; intros Hnd Hin; [contradiction|].
  simpl in *. inversion Hnd as [|? ? Hk' Hnd']. subst.
  destruct Hin as [Heq|Hin].
  - injection Heq as -> ->. rewrite String.eqb_refl. reflexivity.
  - destruct (k' =? k)%string eqn:E.
    + apply String.eqb_eq in E. subst k'. exfalso. apply Hk'.
      apply (in_map fst) in Hin. exact Hin.
    + apply IH; assumption.
Qed.

Lemma mapM_map_Ok {A B C : Type} (f : B -> result C) (h : A -> B)
  (g : A -> C) (l : list A) :
  (forall a, In a l -> f (h a) = Ok (g a)) ->
  mapM f (map h l) = Ok (map g l).
Proof.
  induction l as [|a l IH]; intros H; [reflexivity|].
  simpl. rewrite (H a (or_introl eq_refl)). simpl.
  rewrite IH; [reflexivity|]. intros b Hb. apply H. right. exact Hb.
Qed.

Lemma REGIONS_NoDup : NoDup REGIONS.
Proof.
  unfold REGIONS.
  repeat (constructor; [simpl; intuition discriminate|]).
  constructor.
Qed.

Lemma baseline_of_range (c : Z) (b : string) :
  baseline_of BASELINE_SCENARIOS c = Some b ->
  (1 <= c <= 4)%Z /\ In b ["rcp26"; "rcp45"; "rcp60"; "rcp85"].
Proof.
  unfold BASELINE_SCENARIOS. cbn [baseline_of].
  destruct (1 =? c)%Z eqn:E1; [intros H; injection H as <-;
                                apply Z.eqb_eq in E1; simpl; split; [lia|tauto]|].
  destruct (2 =? c)%Z eqn:E2; [intros H; injection H as <-;
                                apply Z.eqb_eq in E2; simpl; split; [lia|tauto]|].
  destruct (3 =? c)%Z eqn:E3; [intros H; injection H as <-;
                                apply Z.eqb_eq in E3; simpl; split; [lia|tauto]|].
  destruct (4 =? c)%Z eqn:E4; [intros H; injection H as <-;
                                apply Z.eqb_eq in E4; simpl; split; [lia|tauto]|].
  discriminate.
Qed.

(** X16: the baseline handed over by the dialog is one of the four RCP
    scenarios, the one whose number (1 to 4) is the first valid answer; any
    other answer, or a cancelled dialog, is asked again. *)
Theorem dialog_returns_one_of_four_baselines (regions : list string)
  (choice_answers : list (option Z)) (r_answers : list (option Q))
  (yr_answers : list (option Z)) (baseline : string)
  (targets : list (string * (Q * Z))) :
  get_inputs_via_gui regions choice_answers r_answers yr_answers
  = Some (baseline, targets) ->
  In baseline ["rcp26"; "rcp45"; "rcp60"; "rcp85"]
  /\ exists before choice rest,
       choice_answers = (before ++ Some choice :: rest)%list
       /\ (1 <= choice <= 4)%Z
       /\ baseline_of BASELINE_SCENARIOS choice = Some baseline
       /\ Forall (fun a => match a with
                           | Some c => ~ (1 <= c <= 4)%Z
                           | None => True
                           end) before.
Proof.
  unfold get_inputs_via_gui. intros H.
  destruct (ask_until choice_accepted choice_answers) as [[c rest]|] eqn:Ec;
    [|discriminate].
  destruct (baseline_of BASELINE_SCENARIOS c) as [b|] eqn:Eb; [|discriminate].
  destruct (collect_targets regions r_answers yr_answers) as [pairs|];
    [|discriminate].
  injection H as <- _.
  destruct (baseline_of_range c b Eb) as [Hc Hb].
  split; [exact Hb|].
  apply (proj1 (dialog_loop_stops_at_first_valid_answer
                  choice_accepted choice_answers)) in Ec.
  destruct Ec as [before [Heq [Hbefore _]]].
  exists before, c, rest. repeat split; try assumption; try lia.
  eapply Forall_impl; [|exact Hbefore].
  intros [c'|] Hc'; [|exact I].
  unfold asked_again, choice_accepted in Hc'.
  destruct (baseline_of BASELINE_SCENARIOS c') as [b'|] eqn:Eb';
    [discriminate|].
  intros Hrange. clear - Eb' Hrange.
  unfold BASELINE_SCENARIOS in Eb'. cbn [baseline_of] in Eb'.
  destruct (1 =? c')%Z eqn:E1; [discriminate|].
  destruct (2 =? c')%Z eqn:E2; [discriminate|].
  destruct (3 =? c')%Z eqn:E3; [discriminate|].
  destruct (4 =? c')%Z eqn:E4; [discriminate|].
  apply Z.eqb_neq in E1, E2, E3, E4. lia.
Qed.

Lemma dialog_returns_one_of_four_baselines_witness :
  In "rcp45" ["rcp26"; "rcp45"; "rcp60"; "rcp85"]
  /\ exists before choice rest,
       [Some 7; None; Some 2; Some 1]%Z
       = (before ++ Some choice :: rest)%list
       /\ (1 <= choice <= 4)%Z
       /\ baseline_of BASELINE_SCENARIOS choice = Some "rcp45"
       /\ Forall (fun a => match a with
                           | Some c => ~ (1 <= c <= 4)%Z
                           | None => True
                           end) before.
Proof.
  apply (dialog_returns_one_of_four_baselines
           ["World|R5LAM"] [Some 7; None; Some 2; Some 1]%Z
           [Some 2; None; Some (1#2)] [None; Some 1999; Some 2060]%Z
           "rcp45" [("World|R5LAM", (1#2, 2060%Z))]).
  reflexivity.
Defined.

(** X17: the vectors the main program builds from what the dialog hands over
    are never missing a region: both lookups succeed, the two vectors have
    one entry per region of [REGIONS], in that order, with every fraction in
    [0,1] and every year from 2025 to 2100; so the schedule is always
    built, and on a scenario with the six expected rows on the grid
    [modify_scenario] returns a run. *)
Theorem main_vectors_are_valid (choice_answers : list (option Z))
  (r_answers : list (option Q)) (yr_answers : list (option Z))
  (baseline : string) (targets : list (string * (Q * Z))) :
  get_inputs_via_gui REGIONS choice_answers r_answers yr_answers
  = Some (baseline, targets) ->
  map fst targets = REGIONS
  /\ r_vals targets = Ok (map (fun t => fst (snd t)) targets)
  /\ y_vals targets = Ok (map (fun t => snd (snd t)) targets)
  /\ Forall (fun r => 0 <= r <= 1) (map (fun t => fst (snd t)) targets)
  /\ Forall (fun y => 2025 <= y <= 2100)%Z
            (map (fun t => snd (snd t)) targets)
  /\ (exists M, R_phase (map (fun t => fst (snd t)) targets)
                        (map (fun t => snd (snd t)) targets) = Ok M)
  /\ (forall scen, expected_schema scen -> on_grid scen ->
        exists out,
          modify_scenario scen (map (fun t => fst (snd t)) targets)
                          (map (fun t => snd (snd t)) targets) = Ok out).
Proof.
  unfold get_inputs_via_gui. intros H.
  destruct (ask_until choice_accepted choice_answers) as [[c rest]|];
    [|discriminate].
  destruct (baseline_of BASELINE_SCENARIOS c) as [b|]; [|discriminate].
  destruct (collect_targets REGIONS r_answers yr_answers) as [pairs|] eqn:Ep;
    [|discriminate].
  injection H as _ <-.
  destruct (collect_targets_in_range _ _ _ _ Ep) as [Hkeys Hrange].
  assert (Hnd : NoDup (map fst pairs))
    by (rewrite Hkeys; exact REGIONS_NoDup).
  rewrite (fold_dict_set_NoDup pairs []) by exact Hnd.
  cbn [app].
  assert (Hr : Forall (fun r => 0 <= r <= 1)
                      (map (fun t => fst (snd t)) pairs)).
  { rewrite Forall_map. eapply Forall_impl; [|exact Hrange].
    intros t Ht. apply Ht. }
  assert (Hy : Forall (fun y => 2025 <= y <= 2100)%Z
                      (map (fun t => snd (snd t)) pairs)).
  { rewrite Forall_map. eapply Forall_impl; [|exact Hrange].
    intros t Ht. apply Ht. }
  assert (Hy24 : Forall (fun y => 2024 <= y <= 2100)%Z
                        (map (fun t => snd (snd t)) pairs)).
  { eapply Forall_impl; [|exact Hy]. simpl. intros y Hy'. lia. }
  assert (Hlen : List.length pairs = 5%nat).
  { rewrite <- (length_map fst), Hkeys. reflexivity. }
  split; [exact Hkeys|]. split; [|split].
  - unfold r_vals. rewrite <- Hkeys. apply mapM_map_Ok.
    intros [g t] Hin. cbn [fst snd].
    rewrite (dict_get_NoDup pairs g t Hnd Hin). reflexivity.
  - unfold y_vals. rewrite <- Hkeys. apply mapM_map_Ok.
    intros [g t] Hin. cbn [fst snd].
    rewrite (dict_get_NoDup pairs g t Hnd Hin). reflexivity.
  - split; [exact Hr|]. split; [exact Hy|]. split.
    + eexists. apply R_phase_total; [rewrite !length_map; reflexivity|].
      exact Hy24.
    + intros scen Hs Hgrid.
      apply modify_scenario_total; try assumption;
        rewrite length_map; exact Hlen.
Qed.

Lemma main_vectors_are_valid_witness :
  map fst [("World|R5LAM", (0, 2030%Z)); ("World|R5MAF", (1#2, 2040%Z));
           ("World|R5ASIA", (1, 2050%Z)); ("World|R5REF", (1#4, 2025%Z));
           ("World|R5OECD", (3#4, 2100%Z))] = REGIONS
  /\ r_vals [("World|R5LAM", (0, 2030%Z)); ("World|R5MAF", (1#2, 2040%Z));
             ("World|R5ASIA", (1, 2050%Z)); ("World|R5REF", (1#4, 2025%Z));
             ("World|R5OECD", (3#4, 2100%Z))]
     = Ok [0; 1#2; 1; 1#4; 3#4]
  /\ y_vals [("World|R5LAM", (0, 2030%Z)); ("World|R5MAF", (1#2, 2040%Z));
             ("World|R5ASIA", (1, 2050%Z)); ("World|R5REF", (1#4, 2025%Z));
             ("World|R5OECD", (3#4, 2100%Z))]
     = Ok [2030; 2040; 2050; 2025; 2100]%Z
  /\ Forall (fun r => 0 <= r <= 1) [0; 1#2; 1; 1#4; 3#4]
  /\ Forall (fun y => 2025 <= y <= 2100)%Z [2030; 2040; 2050; 2025; 2100]%Z
  /\ (exists M, R_phase [0; 1#2; 1; 1#4; 3#4]
                        [2030; 2040; 2050; 2025; 2100]%Z = Ok M)
  /\ (forall scen, expected_schema scen -> on_grid scen ->
        exists out,
          modify_scenario scen [0; 1#2; 1; 1#4; 3#4]
                          [2030; 2040; 2050; 2025; 2100]%Z = Ok out).
Proof.
  apply (main_vectors_are_valid
           [Some 9; Some 2]%Z
           [Some 0; Some (3#2); Some (1#2); None; Some 1; Some (1#4);
            Some (3#4)]
           [Some 2030; Some 2040; Some 2024; Some 2050; Some 0; Some 2025;
            Some 2101; Some 2100]%Z
           "rcp45").
  reflexivity.
Defined.

(** * Properties of the country table *)

Lemma dict_get_set {V : Type} (d : list (string * V)) (k : string) (v : V) :
  dict_get (dict_set d k v) k = Ok v.
Proof.
  induction d as [|[k' v'] d IH]; simpl.
  - rewrite String.eqb_refl. reflexivity.
  - destruct (k' =? k)%string eqn:E; simpl; rewrite E; [reflexivity|exact IH].
Qed.

Lemma get_default_set_other (d : list (string * string))
  (k k' v default : string) :
  k <> k' -> get_default (dict_set d k v) k' default = get_default d k' default.
Proof.
  intros Hne. induction d as [|[k0 v0] d IH]; simpl.
  - destruct (k =? k')%string eqn:E; [|reflexivity].
    apply String.eqb_eq in E. contradiction.
  - destruct (k0 =? k)%string eqn:E; simpl.
    + apply String.eqb_eq in E. subst k0.
      destruct (k =? k')%string eqn:E'; [|reflexivity].
      apply String.eqb_eq in E'. contradiction.
    + rewrite IH. reflexivity.
Qed.

Lemma map_to_r5_range (row : GeoRow) :
  In (map_to_r5 row)
     ["World|R5OECD"; "World|R5REF"; "World|R5ASIA"; "World|R5MAF";
      "World|R5LAM"; "Other"].
Proof.
  unfold map_to_r5.
  repeat match goal with
         | |- context [if ?c then _ else _] => destruct c
         end; simpl; tauto.
Qed.

(** X18: every country row of the table returned by [load_and_map_geodata]
    carries a [magicc_region] that is a key of [REGION_COLORS], so the style
    function of the map gives it one of the six listed colours and never
    falls back to the grey '#808080'. *)
Theorem every_country_gets_a_listed_colour (world : GeoFrame)
  (row : GeoRow) :
  In row (geo_rows (load_and_map_geodata world)) ->
  exists g c,
    dict_get row "magicc_region" = Ok g
    /\ In (g, c) REGION_COLORS
    /\ fillColor row = Ok c
    /\ c <> "#808080".
Proof.
  unfold load_and_map_geodata. cbn [geo_rows]. intros Hrow.
  apply in_map_iff in Hrow. destruct Hrow as [row0 [<- _]].
  exists (map_to_r5 row0).
  unfold fillColor. rewrite dict_get_set. cbn [bind].
  pose proof (map_to_r5_range row0) as Hg. simpl in Hg.
  repeat (destruct Hg as [Hg|Hg];
          [rewrite <- Hg; eexists; split; [reflexivity|];
           split; [simpl; tauto|]; split; [reflexivity|discriminate]|]).
  contradiction.
Qed.

Lemma every_country_gets_a_listed_colour_witness :
  exists g c,
    dict_get [("ADMIN", "France"); ("CONTINENT", "Europe");
              ("magicc_region", "World|R5OECD")] "magicc_region" = Ok g
    /\ In (g, c) REGION_COLORS
    /\ fillColor [("ADMIN", "France"); ("CONTINENT", "Europe");
                  ("magicc_region", "World|R5OECD")] = Ok c
    /\ c <> "#808080".
Proof.
  apply (every_country_gets_a_listed_colour
           (mkGeo ["ADMIN"; "CONTINENT"]
                  [[("ADMIN", "Antarctica"); ("CONTINENT", "Antarctica")];
                   [("ADMIN", "France"); ("CONTINENT", "Europe")]])).
  simpl. left. reflexivity.
Defined.

(** X19: the tests are taken in order, so the sub-region plays no part for a
    European country: a row with CONTINENT 'Europe' whose ADM0_A3 is not
    'RUS' is R5OECD even when its SUBREGION is 'Eastern Europe'; and the row
    with ADM0_A3 'RUS' (not named Greenland) is R5REF whatever its
    continent. *)
Theorem europe_is_oecd_except_russia (row : GeoRow) :
  (get_default row "CONTINENT" "" = "Europe" ->
   get_default row "ADM0_A3" "" <> "RUS" ->
   map_to_r5 row = "World|R5OECD")
  /\ (get_default row "ADM0_A3" "" = "RUS" ->
      get_default row "ADMIN" (get_default row "name" "") <> "Greenland" ->
      map_to_r5 row = "World|R5REF").
Proof.
  unfold map_to_r5. split.
  - intros Hc Hiso. rewrite Hc.
    apply String.eqb_neq in Hiso. rewrite Hiso.
    destruct (isin _ _); [reflexivity|].
    destruct (_ =? "Greenland")%string; reflexivity.
  - intros Hiso Hname. rewrite Hiso.
    apply String.eqb_neq in Hname. rewrite Hname.
    cbn [isin existsb String.eqb Ascii.eqb Bool.eqb orb andb negb].
    rewrite andb_false_r. reflexivity.
Qed.

(** X20: a row is classified R5MAF only from outside Asia and Europe: a
    country with CONTINENT 'Asia' is R5OECD, R5REF or R5ASIA, so the test on
    the sub-region 'Western Asia' never applies to it. *)
Theorem asian_rows_are_never_maf (row : GeoRow) :
  (get_default row "CONTINENT" "" = "Asia" ->
   In (map_to_r5 row) ["World|R5OECD"; "World|R5REF"; "World|R5ASIA"])
  /\ (map_to_r5 row = "World|R5MAF" ->
      get_default row "CONTINENT" "" <> "Asia"
      /\ (get_default row "CONTINENT" "" = "Africa"
          \/ get_default row "SUBREGION" "" = "Western Asia")).
Proof.
  unfold map_to_r5.
  set (iso := get_default row "ADM0_A3" "").
  set (name := get_default row "ADMIN" (get_default row "name" "")).
  set (continent := get_default row "CONTINENT" "").
  set (subregion := get_default row "SUBREGION" "").
  destruct (isin iso ["JPN"; "KOR"; "AUS"; "NZL"; "CAN"; "USA"; "CHE"; "ISL";
                      "NOR"; "TUR"]) eqn:Eoecd.
  { split; [intros _; simpl; tauto|discriminate]. }
  destruct (name =? "Greenland")%string.
  { split; [intros _; simpl; tauto|discriminate]. }
  destruct ((continent =? "Europe")%string && negb (iso =? "RUS")%string).
  { split; [intros _; simpl; tauto|discriminate]. }
  destruct ((iso =? "RUS")%string
            || isin subregion ["Central Asia"; "Eastern Europe"]).
  { split; [intros _; simpl; tauto|discriminate]. }
  assert (Hjk : isin iso ["JPN"; "KOR"] = false).
  { cbn [isin existsb] in *.
    destruct (iso =? "JPN")%string; [discriminate|].
    destruct (iso =? "KOR")%string; [discriminate|]. reflexivity. }
  rewrite Hjk. cbn [negb]. rewrite andb_true_r.
  destruct (continent =? "Asia")%string eqn:Easia.
  { split; [intros _; simpl; tauto|discriminate]. }
  apply String.eqb_neq in Easia.
  split; [intros H; contradiction|].
  destruct ((continent =? "Africa")%string
            || (subregion =? "Western Asia")%string) eqn:Emaf.
  - intros _. split; [exact Easia|].
    apply orb_true_iff in Emaf.
    destruct Emaf as [E|E]; apply String.eqb_eq in E; tauto.
  - destruct (isin continent _ && _); [discriminate|].
    destruct (_ && _); discriminate.
Qed.

(** X21: [load_and_map_geodata] drops Antarctica and nothing else: judged by
    the [name] column when the table has one, and by the [ADMIN] column only
    when it has no [name] column, no row of the result is Antarctica; every
    other row of the table is in the result, changed only by the
    [magicc_region] it is given. *)
Theorem antarctica_is_dropped (world : GeoFrame) :
  (forall row, In row (geo_rows (load_and_map_geodata world)) ->
     (isin "name" (columns world) = true ->
      get_default row "name" "" <> "Antarctica")
     /\ (isin "name" (columns world) = false ->
         isin "ADMIN" (columns world) = true ->
         get_default row "ADMIN" "" <> "Antarctica")
     /\ exists row0,
          In row0 (geo_rows world)
          /\ row = dict_set row0 "magicc_region" (map_to_r5 row0))
  /\ (forall row0, In row0 (geo_rows world) ->
        get_default row0 "name" "" <> "Antarctica" ->
        get_default row0 "ADMIN" "" <> "Antarctica" ->
        In (dict_set row0 "magicc_region" (map_to_r5 row0))
           (geo_rows (load_and_map_geodata world)))
  /\ (List.length (geo_rows (load_and_map_geodata world))
      <= List.length (geo_rows world))%nat.
Proof.
  unfold load_and_map_geodata. cbn [geo_rows].
  split; [|split].
  - intros row Hrow. apply in_map_iff in Hrow.
    destruct Hrow as [row0 [<- Hrow0]].
    rewrite !get_default_set_other by discriminate.
    destruct (isin "name" (columns world)).
    + apply filter_In in Hrow0. destruct Hrow0 as [Hin Hkeep].
      apply negb_true_iff, String.eqb_neq in Hkeep.
      split; [intros _; exact Hkeep|]. split; [discriminate|].
      exists row0. auto.
    + split; [discriminate|].
      destruct (isin "ADMIN" (columns world)).
      * apply filter_In in Hrow0. destruct Hrow0 as [Hin Hkeep].
        apply negb_true_iff, String.eqb_neq in Hkeep.
        split; [intros _ _; exact Hkeep|]. exists row0. auto.
      * split; [discriminate|]. exists row0. auto.
  - intros row0 Hin Hname Hadmin.
    apply (in_map (fun row => dict_set row "magicc_region" (map_to_r5 row))).
    apply String.eqb_neq in Hname, Hadmin.
    destruct (isin "name" (columns world)).
    + apply filter_In. split; [exact Hin|]. rewrite Hname. reflexivity.
    + destruct (isin "ADMIN" (columns world)); [|exact Hin].
      apply filter_In. split; [exact Hin|]. rewrite Hadmin. reflexivity.
  - rewrite length_map.
    destruct (isin "name" (columns world)); [apply filter_length_le|].
    destruct (isin "ADMIN" (columns world)); [apply filter_length_le|].
    apply Nat.le_refl.
Qed.

Lemma antarctica_is_dropped_witness :
  get_default [("ADMIN", "France"); ("CONTINENT", "Europe");
               ("magicc_region", "World|R5OECD")]
              "ADMIN" "" <> "Antarctica".
Proof.
  apply (proj1 (antarctica_is_dropped
                  (mkGeo ["ADMIN"; "CONTINENT"]
                         [[("ADMIN", "Antarctica");
                           ("CONTINENT", "Antarctica")];
                          [("ADMIN", "France"); ("CONTINENT", "Europe")]]))
               [("ADMIN", "France"); ("CONTINENT", "Europe");
                ("magicc_region", "World|R5OECD")]).
  - vm_compute. left. reflexivity.
  - reflexivity.
  - reflexivity.
Defined.

Lemma europe_is_oecd_except_russia_witness :
  map_to_r5 [("ADM0_A3", "UKR"); ("ADMIN", "Ukraine");
             ("CONTINENT", "Europe"); ("SUBREGION", "Eastern Europe")]
  = "World|R5OECD".
Proof.
  apply (proj1 (europe_is_oecd_except_russia
                  [("ADM0_A3", "UKR"); ("ADMIN", "Ukraine");
                   ("CONTINENT", "Europe");
                   ("SUBREGION", "Eastern Europe")])).
  - reflexivity.
  - discriminate.
Defined.

Lemma asian_rows_are_never_maf_witness :
  In (map_to_r5 [("ADM0_A3", "SAU"); ("ADMIN", "Saudi Arabia");
                 ("CONTINENT", "Asia"); ("SUBREGION", "Western Asia")])
     ["World|R5OECD"; "World|R5REF"; "World|R5ASIA"].
Proof.
  apply (proj1 (asian_rows_are_never_maf
                  [("ADM0_A3", "SAU"); ("ADMIN", "Saudi Arabia");
                   ("CONTINENT", "Asia"); ("SUBREGION", "Western Asia")])).
  reflexivity.
Defined.

Lemma dialog_loop_stops_at_first_valid_answer_witness :
  ask_until yr_accepted [None; Some 1999; Some 2060; Some 2070]%Z
  = Some (2060%Z, [Some 2070%Z]).
Proof.
  apply (proj1 (dialog_loop_stops_at_first_valid_answer
                  yr_accepted [None; Some 1999; Some 2060; Some 2070]%Z)).
  exists [None; Some 1999%Z]. split; [reflexivity|].
  split; [|reflexivity].
  repeat constructor.
Defined.

Lemma schedule_matrix_built_iff_witness :
  exists M, R_phase [2; 1#2] [2024; 2100; 1900]%Z = Ok M.
Proof.
  apply (proj2 (schedule_matrix_built_iff [2; 1#2] [2024; 2100; 1900]%Z)).
  split; [simpl; lia|].
  repeat constructor; lia.
Defined.



(** C7: end to end the scaled value does not come out under R5OECD.  On the
    sample scenario (regional rows in the order of the docstring, R5OECD
    baseline 5 at 2050) with r = 1/2 and target year 2075 for R5OECD in the
    caller's order, the row labelled R5OECD of the returned run holds 1 at
    2050, the unchanged R5LAM value, not 5 * 0.75; the value 5 * 0.75 is
    labelled R5ASIA.  With r = 1/2 and 2075 for all five regions the row
    labelled R5OECD holds 1 * 0.75, the scaled R5LAM value. *)
Theorem oecd_2050_end_to_end_is_not_three_quarters :
  exists out oecd asia out_all oecd_all,
    nth_error REGIONS 4 = Some "World|R5OECD"
    /\ fossil_rows "World|R5OECD" sample_scen = [sample_oecd]
    /\ at_year (values sample_oecd) 2050 == 5
    /\ modify_scenario sample_scen [0; 0; 0; 0; 1#2]
                       [2050; 2050; 2050; 2050; 2075]%Z = Ok out
    /\ fossil_rows "World|R5OECD" out = [oecd]
    /\ at_year (values oecd) 2050 == 1
    /\ ~ at_year (values oecd) 2050 == 5 * (3#4)
    /\ fossil_rows "World|R5ASIA" out = [asia]
    /\ at_year (values asia) 2050 == 5 * (3#4)
    /\ modify_scenario sample_scen [1#2; 1#2; 1#2; 1#2; 1#2]
                       [2075; 2075; 2075; 2075; 2075]%Z = Ok out_all
    /\ fossil_rows "World|R5OECD" out_all = [oecd_all]
    /\ at_year (values oecd_all) 2050 == 1 * (3#4)
    /\ ~ at_year (values oecd_all) 2050 == 5 * (3#4).
Proof.
  do 5 eexists.
  split; [reflexivity|]. split; [reflexivity|].
  split; [vm_compute; reflexivity|].
  split; [vm_compute; reflexivity|].
  split; [vm_compute; reflexivity|].
  split; [vm_compute; reflexivity|].
  split; [vm_compute; discriminate|].
  split; [vm_compute; reflexivity|].
  split; [vm_compute; reflexivity|].
  split; [vm_compute; reflexivity|].
  split; [vm_compute; reflexivity|].
  split; [vm_compute; reflexivity|].
  vm_compute. discriminate.
Qed.
